(** * GeminiHydra, [bin/calc_sim.py]: cosine-similarity ranking of memories

    The script scores every stored memory that carries an embedding against
    a query vector, sorts the scored memories by descending score and prints
    the first [top_k] of them as one JSON document.  Any exception raised on
    the way is turned into the document [[{"error": str(e)}]].

    Python floats are IEEE 754 binary64 numbers; they are modelled by the
    standard library's [spec_float] with [prec = 53] and [emax = 1024].  The
    arithmetic used by [cosine_similarity] is kept behind a small interface
    ([PyFloat]) so that the same function can also be read over the exact
    reals.

    The definitions of the first part read the components of a vector as
    floats.  A JSON number without fraction and exponent is a Python [int],
    though, of any size: module [Py] reads the components as JSON numbers,
    ints included, with the one exception that this adds, the
    [OverflowError] of an int too large to convert to a float.  The two
    readings agree on vectors of floats ([cosine_similarity_floats],
    [rank_floats], [stdout_of_floats]). *)

From Stdlib Require Import ZArith Bool String List Lia.
From Stdlib Require Import Reals Lra Psatz.
From Stdlib Require Import Floats.SpecFloat.
From Stdlib Require Import Sorting.Sorted Sorting.Permutation.
From Stdlib Require Import DecimalString.
Import ListNotations.

Set Implicit Arguments.
Set Warnings "-register-all".

(** ** Exceptions and the exception monad *)

Inductive exn : Type :=
| IndexError (msg : string)
| KeyError (key : string)
| ValueError (msg : string)
| ZeroDivisionError (msg : string)
| LibraryError (cls msg : string).

Inductive result (A : Type) : Type :=
| Ok (a : A)
| Raise (e : exn).

Arguments Ok {A} a.
Arguments Raise {A} e.

Definition bind {A B : Type} (c : result A) (k : A -> result B) : result B :=
  match c with
  | Ok a => k a
  | Raise e => Raise e
  end.

Declare Scope py_scope.
Delimit Scope py_scope with py.
Notation "x <- c ;; k" := (bind c (fun x => k))
  (at level 61, c at next level, right associativity) : py_scope.
Local Open Scope py_scope.

(** [str(e)] for the exceptions above; a [KeyError] prints the [repr] of
    its key. *)
Definition str_exn (e : exn) : string :=
  match e with
  | IndexError msg => msg
  | KeyError key => ("'" ++ key ++ "'")%string
  | ValueError msg => msg
  | ZeroDivisionError msg => msg
  | LibraryError _ msg => msg
  end.

(** ** Float arithmetic as Python sees it *)

Class PyFloat (F : Type) : Type := {
  f_zero : F;
  f_mul : F -> F -> F;
  f_add : F -> F -> F;
  f_div : F -> F -> F;
  f_sqrt : F -> F;
  f_eqb : F -> F -> bool;
  f_ltb : F -> F -> bool
}.

Section Arith.
Context {F : Type} `{PyFloat F}.

(** Truth value of a float: [bool(x)] is [x != 0.0]. *)
Definition truthy (x : F) : bool := negb (f_eqb x f_zero).

(** [math.sqrt]: a negative argument is a domain error. *)
Definition math_sqrt (x : F) : result F :=
  if f_ltb x f_zero then Raise (ValueError "math domain error")
  else Ok (f_sqrt x).

(** [x / y] on floats. *)
Definition truediv (x y : F) : result F :=
  if f_eqb y f_zero then Raise (ZeroDivisionError "float division by zero")
  else Ok (f_div x y).

(** [sum(iterable)]: the additions from left to right, starting from [0].
    (CPython 3.12 and later also carry a correction term for the rounding
    errors of float additions; it is zero when the additions are exact and
    when there is one summand only.) *)
Definition py_sum (l : list F) : F := fold_left f_add l f_zero.

(** [zip(v1, v2)] stops at the end of the shorter argument. *)
Definition zip (v1 v2 : list F) : list (F * F) := combine v1 v2.

Definition dot_product (v1 v2 : list F) : F :=
  py_sum (map (fun ab => f_mul (fst ab) (snd ab)) (zip v1 v2)).

Definition sum_squares (v : list F) : F :=
  py_sum (map (fun a => f_mul a a) v).

Definition magnitude (v : list F) : result F :=
  math_sqrt (sum_squares v).

Definition cosine_similarity (v1 v2 : list F) : result F :=
  let dot_product := dot_product v1 v2 in
  magnitude1 <- magnitude v1 ;;
  magnitude2 <- magnitude v2 ;;
  if negb (truthy magnitude1) || negb (truthy magnitude2) then Ok f_zero
  else truediv dot_product (f_mul magnitude1 magnitude2).

End Arith.

(** ** The two readings of the arithmetic *)

Definition prec : Z := 53.
Definition emax : Z := 1024.

Definition float : Type := spec_float.

#[export] Instance binary64 : PyFloat float := {|
  f_zero := S754_zero false;
  f_mul := SFmul prec emax;
  f_add := SFadd prec emax;
  f_div := SFdiv prec emax;
  f_sqrt := SFsqrt prec emax;
  f_eqb := SFeqb;
  f_ltb := SFltb
|}.

Definition Reqb (x y : R) : bool := if Req_dec_T x y then true else false.
Definition Rltb (x y : R) : bool := if Rlt_dec x y then true else false.

Definition exact_real : PyFloat R := {|
  f_zero := 0%R;
  f_mul := Rmult;
  f_add := Rplus;
  f_div := Rdiv;
  f_sqrt := sqrt;
  f_eqb := Reqb;
  f_ltb := Rltb
|}.

(** Float literals.  [of_Z n] is the float of a small integer and
    [pow2 m e] is [m * 2^e]; both round to nearest even. *)
Definition of_Z (n : Z) : float := binary_normalize prec emax n 0 false.
Definition pow2 (m e : Z) : float := binary_normalize prec emax m e false.
Definition nan : float := S754_nan.
Definition infinity : float := S754_infinity false.

(** [1e100], [1e300] and [1e200] as binary64 numbers. *)
Definition f_1e100 : float := S754_finite false 5147557589468029 280.
Definition f_1e300 : float := S754_finite false 6724873095247260 944.
Definition f_1e200 : float := S754_finite false 5883593420661338 612.

(** ** Memories and scored results *)

(** JSON values that the script only passes through ([content], [metadata]
    and [id] are never inspected). *)
Inductive json : Type :=
| JNull
| JBool (b : bool)
| JInt (n : Z)
| JFloat (x : float)
| JString (s : string)
| JArray (items : list json)
| JObject (members : list (string * json)).

(** One element of the memory file: a dict in which each of the four keys
    may be absent. *)
Record MemoryRecord : Type := {
  mem_content : option json;
  mem_embedding : option (list float);
  mem_metadata : option json;
  mem_id : option json
}.

(** The dict appended to [results]. *)
Record ScoredResult : Type := {
  res_content : json;
  res_score : float;
  res_metadata : json;
  res_id : json
}.

(** [d[key]] and [d.get(key, default)] on an optional field. *)
Definition getitem (field : option json) (key : string) : result json :=
  match field with
  | Some v => Ok v
  | None => Raise (KeyError key)
  end.

Definition dict_get (field : option json) (default : json) : json :=
  match field with
  | Some v => v
  | None => default
  end.

(** ** [list.sort(key=..., reverse=True)] and [results[:top_k]]

    CPython sorts in ascending order with [<] as the only comparison, and
    gets a descending stable sort by reversing the list before and after.
    The ascending sort of a list of fewer than 64 elements finds the run
    that starts the list (reversed if it is strictly descending) and puts
    each of the other elements in its place by binary search.  Longer lists
    are cut into such runs, which are then merged; the merges are not
    modelled, and they change nothing to the result as long as [<] orders
    the keys, that is as long as no key is a NaN. *)
Section Sort.
Variable A : Type.
Variable key : A -> float.

(** The comparison of two elements by their keys. *)
Definition islt (x y : A) : bool := f_ltb (key x) (key y).

(** The run that starts the list: after [prev], the elements as long as
    none is smaller than the one before it ... *)
Fixpoint ascending_run (prev : A) (l : list A) : list A * list A :=
  match l with
  | [] => ([], [])
  | x :: l' =>
      if islt x prev then ([], l)
      else let (run, rest) := ascending_run x l' in (x :: run, rest)
  end.

(** ... or as long as each is smaller than the one before it. *)
Fixpoint descending_run (prev : A) (l : list A) : list A * list A :=
  match l with
  | [] => ([], [])
  | x :: l' =>
      if islt x prev
      then let (run, rest) := descending_run x l' in (x :: run, rest)
      else ([], l)
  end.

(** The first run, put in ascending order, and the elements after it. *)
Definition count_run (l : list A) : list A * list A :=
  match l with
  | [] => ([], [])
  | x0 :: l' =>
      match l' with
      | [] => ([x0], [])
      | x1 :: _ =>
          if islt x1 x0
          then let (run, rest) := descending_run x0 l' in (rev (x0 :: run), rest)
          else let (run, rest) := ascending_run x0 l' in (x0 :: run, rest)
      end
  end.

(** Binary search for the place of [pivot] in [sorted], between the
    positions [l] and [r]; [r - l] steps are enough. *)
Fixpoint bisect (fuel : nat) (sorted : list A) (pivot : A) (l r : nat) : nat :=
  match fuel with
  | O => l
  | S fuel' =>
      if l <? r then
        let p := l + (r - l) / 2 in
        match nth_error sorted p with
        | Some y =>
            if islt pivot y then bisect fuel' sorted pivot l p
            else bisect fuel' sorted pivot (p + 1) r
        | None => l
        end
      else l
  end.

(** The pivot goes in front of the position found. *)
Definition binary_insert (sorted : list A) (pivot : A) : list A :=
  let l := bisect (length sorted) sorted pivot 0 (length sorted) in
  firstn l sorted ++ pivot :: skipn l sorted.

Definition binarysort (sorted rest : list A) : list A :=
  fold_left binary_insert rest sorted.

(** The ascending sort: the first run, then the other elements inserted
    one after the other. *)
Definition list_sort_forward (l : list A) : list A :=
  let (run, rest) := count_run l in binarysort run rest.

(** [l.sort(key=key, reverse=True)]. *)
Definition list_sort_reverse (l : list A) : list A :=
  rev (list_sort_forward (rev l)).

(** [l[:k]]: a negative [k] counts from the end. *)
Definition slice_to (k : Z) (l : list A) : list A :=
  let n := Z.of_nat (List.length l) in
  let stop := if (k <? 0)%Z then Z.max 0 (n + k) else Z.min k n in
  firstn (Z.to_nat stop) l.

End Sort.

(** ** The body of [main] *)

(** One iteration of [for mem in memories]. *)
Definition iteration (query_vector : list float)
  (results : list ScoredResult) (mem : MemoryRecord)
  : result (list ScoredResult) :=
  match mem_embedding mem with
  | None => Ok results
  | Some [] => Ok results
  | Some embedding =>
      score <- cosine_similarity query_vector embedding ;;
      content <- getitem (mem_content mem) "content" ;;
      Ok (results ++ [ {| res_content := content;
                          res_score := score;
                          res_metadata := dict_get (mem_metadata mem) (JObject []);
                          res_id := dict_get (mem_id mem) (JString "unknown") |} ])
  end.

Fixpoint for_each (query_vector : list float) (memories : list MemoryRecord)
  (results : list ScoredResult) : result (list ScoredResult) :=
  match memories with
  | [] => Ok results
  | mem :: rest =>
      results' <- iteration query_vector results mem ;;
      for_each query_vector rest results'
  end.

(** Lines 24 to 42 of the script without the [print]: score, sort, cut. *)
Definition rank (query_vector : list float) (memories : list MemoryRecord)
  (top_k : Z) : result (list ScoredResult) :=
  results <- for_each query_vector memories [] ;;
  Ok (slice_to top_k (list_sort_reverse res_score results)).

(** ** Standard output and [main] *)

Definition dumps_result (r : ScoredResult) : json :=
  JObject [ ("content", res_content r); ("score", JFloat (res_score r));
            ("metadata", res_metadata r); ("id", res_id r) ]%string.

Definition dumps_results (rs : list ScoredResult) : json :=
  JArray (map dumps_result rs).

Definition dumps_error (e : exn) : json :=
  JArray [ JObject [ ("error"%string, JString (str_exn e)) ] ].

(** A computation that may print documents and may raise; what was printed
    before an exception stays printed. *)
Definition io (A : Type) : Type := list json -> result A * list json.

Definition io_bind {A B : Type} (c : io A) (k : A -> io B) : io B :=
  fun out =>
    match c out with
    | (Ok a, out') => k a out'
    | (Raise e, out') => (Raise e, out')
    end.

Definition lift {A : Type} (c : result A) : io A := fun out => (c, out).

Definition print (doc : json) : io unit := fun out => (Ok tt, out ++ [doc]).

Definition try_except {A : Type} (c : io A) (handler : exn -> io A) : io A :=
  fun out =>
    match c out with
    | (Ok a, out') => (Ok a, out')
    | (Raise e, out') => handler e out'
    end.

Notation "x <~ c ;; k" := (io_bind c (fun x => k))
  (at level 61, c at next level, right associativity) : py_scope.

Definition argv_get (argv : list string) (i : nat) : result string :=
  match nth_error argv i with
  | Some s => Ok s
  | None => Raise (IndexError "list index out of range")
  end.

Section Script.
(** The library calls of the script: [json.loads] on the query argument,
    [int] on the third argument, and [open] followed by [json.load]. *)
Variable json_loads : string -> result (list float).
Variable int_of_str : string -> result Z.
Variable open_json_load : string -> result (list MemoryRecord).

Definition main_try (argv : list string) : io unit :=
  query_vector <~ lift (a <- argv_get argv 1 ;; json_loads a) ;;
  memory_file <~ lift (argv_get argv 2) ;;
  top_k <~ lift (a <- argv_get argv 3 ;; int_of_str a) ;;
  memories <~ lift (open_json_load memory_file) ;;
  results <~ lift (rank query_vector memories top_k) ;;
  print (dumps_results results).

Definition main (argv : list string) : io unit :=
  try_except (main_try argv) (fun e => print (dumps_error e)).

(** What a run leaves on standard output. *)
Definition stdout_of (argv : list string) : list json := snd (main argv []).

End Script.

(** ** Comparing floats *)

Definition is_nan (x : float) : bool :=
  match x with S754_nan => true | _ => false end.

(** [x] lies in the closed interval from [-1.0] to [1.0]. *)
Definition in_unit_interval (x : float) : bool :=
  SFleb (of_Z (-1)) x && SFleb x (of_Z 1).

(** Position of a float that is not a NaN on the line: class first (the
    infinities, the two signs, zero), then exponent, then mantissa. *)
Definition position (x : float) : Z * Z * Z :=
  match x with
  | S754_infinity true => (-2, 0, 0)
  | S754_finite true m e => (-1, - e, - Zpos m)
  | S754_zero _ => (0, 0, 0)
  | S754_nan => (0, 0, 0)
  | S754_finite false m e => (1, e, Zpos m)
  | S754_infinity false => (2, 0, 0)
  end%Z.

Definition lex_lt (p q : Z * Z * Z) : Prop :=
  let '(a, b, c) := p in
  let '(a', b', c') := q in
  (a < a' \/ (a = a' /\ (b < b' \/ (b = b' /\ c < c'))))%Z.

Definition lex_le (p q : Z * Z * Z) : Prop := lex_lt p q \/ p = q.

Section SortSpec.
Variable A : Type.
Variable key : A -> float.

(** [key a >= key b] in Python. *)
Definition score_ge (a b : A) : Prop := SFleb (key b) (key a) = true.

(** Every element is [>=] every later one. *)
Definition descending (l : list A) : Prop := StronglySorted score_ge l.

(** Every element is [<=] every later one. *)
Definition ascending (l : list A) : Prop :=
  StronglySorted (fun a b => SFleb (key a) (key b) = true) l.

(** Every element is [>] every later one. *)
Definition strictly_descending (l : list A) : Prop :=
  StronglySorted (fun a b => SFltb (key b) (key a) = true) l.

Definition no_nan (l : list A) : Prop :=
  Forall (fun x => is_nan (key x) = false) l.

(** [key x == v] in Python. *)
Definition has_score (v : float) (x : A) : bool := f_eqb (key x) v.

Definition tag_lt (p q : A * nat) : Prop := snd p < snd q.

End SortSpec.

(** ** Vocabulary of the statements *)

(** [mem] passes the test of line 27: it has a non-empty embedding. *)
Definition has_embedding (mem : MemoryRecord) : bool :=
  match mem_embedding mem with
  | Some (_ :: _) => true
  | _ => false
  end.

(** [r] is the dict that the loop appends for [mem]. *)
Definition scored_as (query_vector : list float) (mem : MemoryRecord)
  (r : ScoredResult) : Prop :=
  iteration query_vector [] mem = Ok [r].

(** [not magnitude] holds for the magnitude of [v]. *)
Definition is_zero_magnitude (v : list float) : Prop :=
  exists m, magnitude v = Ok m /\ f_eqb m f_zero = true.

(** Every component is [0.0] or [-0.0]; the empty vector qualifies. *)
Definition zero_vector (v : list float) : Prop :=
  Forall (fun x => f_eqb x f_zero = true) v.

(** ** Ranges of intermediate floats *)

Local Open Scope Z_scope.

Definition emin64 : Z := emin prec emax.

(** The shape of a rounded result: the sign is the one asked for and the
    exponent is not below [emin]. *)
Definition rounded (s : bool) (x : float) : Prop :=
  match x with
  | S754_zero s' => s' = s
  | S754_infinity s' => s' = s
  | S754_nan => True
  | S754_finite s' _ e => s' = s /\ emin64 <= e
  end.

(** Values that [math.sqrt] accepts: sums of squares. *)
Definition nonnegative (x : float) : Prop :=
  match x with
  | S754_infinity s => s = false
  | S754_finite s _ e => s = false /\ emin64 <= e
  | _ => True
  end.

(** Values whose product cannot underflow to zero: magnitudes. *)
Definition in_sqrt_range (x : float) : Prop :=
  match x with
  | S754_infinity s => s = false
  | S754_finite s m e => s = false /\ -536 <= Zdigits2 (Zpos m) + e
  | _ => True
  end.

Local Close Scope Z_scope.

(** ** Sample data *)

Definition f_0 : float := of_Z 0.
Definition f_1 : float := of_Z 1.

Definition mem_a : MemoryRecord :=
  {| mem_content := Some (JString "x"); mem_embedding := Some [f_1; f_0];
     mem_metadata := None; mem_id := Some (JString "a") |}.
Definition mem_b : MemoryRecord :=
  {| mem_content := Some (JString "y"); mem_embedding := Some [f_0; f_1];
     mem_metadata := None; mem_id := Some (JString "b") |}.
Definition mem_c : MemoryRecord :=
  {| mem_content := Some (JString "z"); mem_embedding := Some [];
     mem_metadata := None; mem_id := Some (JString "c") |}.

(** A memory with an embedding and a content but neither id nor metadata,
    and one with an embedding only. *)
Definition mem_bare : MemoryRecord :=
  {| mem_content := Some (JString "x"); mem_embedding := Some [f_1; f_0];
     mem_metadata := None; mem_id := None |}.
Definition mem_no_content : MemoryRecord :=
  {| mem_content := None; mem_embedding := Some [f_1];
     mem_metadata := None; mem_id := Some (JString "d") |}.
Definition mem_no_embedding : MemoryRecord :=
  {| mem_content := Some (JString "w"); mem_embedding := None;
     mem_metadata := None; mem_id := Some (JString "e") |}.

Definition mem_of (name : string) (embedding : list float) : MemoryRecord :=
  {| mem_content := Some (JString name); mem_embedding := Some embedding;
     mem_metadata := None; mem_id := Some (JString name) |}.

(** Seven memories whose scores against [[1e100]] are
    [0.0], [-1.0], [0.0], NaN, [1.0], NaN and [-1.0]. *)
Definition f_m1 : float := of_Z (-1).
Definition unstable_memories : list MemoryRecord :=
  [ mem_of "a" [f_0]; mem_of "x" [f_m1]; mem_of "b" [f_0];
    mem_of "n1" [f_1e300]; mem_of "y" [f_1]; mem_of "n2" [f_1e300];
    mem_of "z" [f_m1] ].

(** [1.2 * 2^-537], whose square rounds down to the smallest subnormal. *)
Definition f_tiny : float := S754_finite false 5404319552844595 (-589).
(** The float nearest to [1.2]. *)
Definition f_1_2 : float := S754_finite false 5404319552844595 (-52).

(** Library calls that return fixed values, for concrete runs. *)
Definition loads_const (v : list float) (_ : string) : result (list float) := Ok v.
Definition int_const (k : Z) (_ : string) : result Z := Ok k.
Definition load_const (m : list MemoryRecord) (_ : string)
  : result (list MemoryRecord) := Ok m.
Definition argv_for (top_k : string) : list string :=
  [ "calc_sim.py"; "[1.0]"; "memory.json"; top_k ]%string.

(** ** Vectors of JSON numbers

    [json.loads] and [json.load] turn a JSON number without fraction and
    exponent into an [int], of any size, and every other number into a
    [float].  The arithmetic of [cosine_similarity] is exact on two ints;
    as soon as one operand is a float, the other is converted to a float,
    and so is an int handed to [math.sqrt].  The conversion rounds to
    nearest even and raises an [OverflowError] when the rounded value lies
    beyond the largest float.  A JSON [true] or [false] is an int of value
    [1] or [0] in this arithmetic. *)

Inductive number : Type :=
| NInt (n : Z)
| NFloat (x : float).

Definition is_float (x : number) : bool :=
  match x with NFloat _ => true | NInt _ => false end.

Definition OverflowError (msg : string) : exn := LibraryError "OverflowError" msg.

(** The only exception of the arithmetic below. *)
Definition too_large : exn := OverflowError "int too large to convert to float".

(** The conversion of an int to a float. *)
Definition float_of_int (n : Z) : result float :=
  match of_Z n with
  | S754_infinity _ => Raise too_large
  | x => Ok x
  end.

Module Py.

Definition as_float (x : number) : result float :=
  match x with
  | NInt n => float_of_int n
  | NFloat x => Ok x
  end.

(** [a * b] and [a + b]. *)
Definition mul (a b : number) : result number :=
  match a, b with
  | NInt m, NInt n => Ok (NInt (m * n))
  | _, _ => x <- as_float a ;; y <- as_float b ;; Ok (NFloat (f_mul x y))
  end.

Definition add (a b : number) : result number :=
  match a, b with
  | NInt m, NInt n => Ok (NInt (m + n))
  | _, _ => x <- as_float a ;; y <- as_float b ;; Ok (NFloat (f_add x y))
  end.

(** [sum(term(x) for x in l)], from the total so far: the generator
    computes one term, [sum] adds it, and so on; the first exception ends
    the sum.  (See [py_sum] for the correction term of CPython 3.12.) *)
Fixpoint sum_from (A : Type) (term : A -> result number) (total : number)
  (l : list A) : result number :=
  match l with
  | [] => Ok total
  | x :: rest =>
      t <- term x ;;
      total' <- add total t ;;
      sum_from term total' rest
  end.

Definition sum (A : Type) (term : A -> result number) (l : list A)
  : result number :=
  sum_from term (NInt 0) l.

(** [math.sqrt(x)] and [x / y] with [y] a float. *)
Definition math_sqrt (x : number) : result float :=
  y <- as_float x ;; math_sqrt y.

Definition truediv (x : number) (y : float) : result float :=
  a <- as_float x ;; truediv a y.

Definition dot_product (v1 v2 : list number) : result number :=
  sum (fun ab => mul (fst ab) (snd ab)) (zip v1 v2).

Definition sum_squares (v : list number) : result number :=
  sum (fun a => mul a a) v.

Definition magnitude (v : list number) : result float :=
  s <- sum_squares v ;; math_sqrt s.

Definition cosine_similarity (v1 v2 : list number) : result float :=
  dot_product <- dot_product v1 v2 ;;
  magnitude1 <- magnitude v1 ;;
  magnitude2 <- magnitude v2 ;;
  if negb (truthy magnitude1) || negb (truthy magnitude2) then Ok f_zero
  else truediv dot_product (f_mul magnitude1 magnitude2).

(** A memory whose embedding holds JSON numbers. *)
Record MemoryRecord : Type := {
  mem_content : option json;
  mem_embedding : option (list number);
  mem_metadata : option json;
  mem_id : option json
}.

Definition has_embedding (mem : MemoryRecord) : bool :=
  match mem_embedding mem with
  | Some (_ :: _) => true
  | _ => false
  end.

Definition iteration (query_vector : list number)
  (results : list ScoredResult) (mem : MemoryRecord)
  : result (list ScoredResult) :=
  match mem_embedding mem with
  | None => Ok results
  | Some [] => Ok results
  | Some embedding =>
      score <- cosine_similarity query_vector embedding ;;
      content <- getitem (mem_content mem) "content" ;;
      Ok (results ++ [ {| res_content := content;
                          res_score := score;
                          res_metadata := dict_get (mem_metadata mem) (JObject []);
                          res_id := dict_get (mem_id mem) (JString "unknown") |} ])
  end.

Fixpoint for_each (query_vector : list number) (memories : list MemoryRecord)
  (results : list ScoredResult) : result (list ScoredResult) :=
  match memories with
  | [] => Ok results
  | mem :: rest =>
      results' <- iteration query_vector results mem ;;
      for_each query_vector rest results'
  end.

Definition rank (query_vector : list number) (memories : list MemoryRecord)
  (top_k : Z) : result (list ScoredResult) :=
  results <- for_each query_vector memories [] ;;
  Ok (slice_to top_k (list_sort_reverse res_score results)).

Section Script.
Variable json_loads : string -> result (list number).
Variable int_of_str : string -> result Z.
Variable open_json_load : string -> result (list MemoryRecord).

Definition main_try (argv : list string) : io unit :=
  query_vector <~ lift (a <- argv_get argv 1 ;; json_loads a) ;;
  memory_file <~ lift (argv_get argv 2) ;;
  top_k <~ lift (a <- argv_get argv 3 ;; int_of_str a) ;;
  memories <~ lift (open_json_load memory_file) ;;
  results <~ lift (rank query_vector memories top_k) ;;
  print (dumps_results results).

Definition main (argv : list string) : io unit :=
  try_except (main_try argv) (fun e => print (dumps_error e)).

Definition stdout_of (argv : list string) : list json := snd (main argv []).

End Script.

(** [not magnitude] holds for the magnitude of [v], which is computed. *)
Definition is_zero_magnitude (v : list number) : Prop :=
  exists m, magnitude v = Ok m /\ f_eqb m f_zero = true.

(** Every component is [0], [0.0] or [-0.0]; the empty vector qualifies. *)
Definition is_zero (x : number) : bool :=
  match x with
  | NInt n => (n =? 0)%Z
  | NFloat x => f_eqb x f_zero
  end.

Definition zero_vector (v : list number) : Prop :=
  forallb is_zero v = true.

(** A vector of moderate size: its ints have at most 150 digits or so, and
    it has at most a million components or so. *)
Definition moderate (x : number) : bool :=
  match x with
  | NInt n => (Z.abs n <=? 2 ^ 500)%Z
  | NFloat _ => true
  end.

Definition moderate_vector (v : list number) : Prop :=
  forallb moderate v = true /\ (Z.of_nat (length v) <= 2 ^ 20)%Z.

(** Two vectors that cannot make the arithmetic overflow: all their
    components are floats, or both are of moderate size. *)
Definition tame (v1 v2 : list number) : Prop :=
  (forallb is_float v1 = true /\ forallb is_float v2 = true) \/
  (moderate_vector v1 /\ moderate_vector v2).

(** The score of an embedding against the query is computed: this is so
    for tame vectors, and in general when no int met on the way is too
    large for a float. *)
Definition computes (query_vector embedding : list number) : Prop :=
  tame query_vector embedding \/
  exists score, cosine_similarity query_vector embedding = Ok score.

End Py.

(** Vectors and memories of floats, as vectors and memories of numbers. *)
Definition numbers (v : list float) : list number := map NFloat v.

Definition number_record (mem : MemoryRecord) : Py.MemoryRecord :=
  {| Py.mem_content := mem_content mem;
     Py.mem_embedding := option_map numbers (mem_embedding mem);
     Py.mem_metadata := mem_metadata mem;
     Py.mem_id := mem_id mem |}.

(** An int is within [bound] in absolute value; a float always is. *)
Definition within (bound : Z) (x : number) : Prop :=
  match x with
  | NInt n => (Z.abs n <= bound)%Z
  | NFloat _ => True
  end.

(** A number that is not negative, as the squares and their sums are. *)
Definition nonnegative_number (x : number) : Prop :=
  match x with
  | NInt n => (0 <= n)%Z
  | NFloat x => nonnegative x
  end.

(** ** Sample data with integer components *)

(** The JSON integer written as a one followed by two hundred zeros; its
    square is too large for a float. *)
Definition n_huge : Z := (10 ^ 200)%Z.

Definition num_mem (name : string) (embedding : list number) : Py.MemoryRecord :=
  {| Py.mem_content := Some (JString name); Py.mem_embedding := Some embedding;
     Py.mem_metadata := Some (JObject []); Py.mem_id := Some (JString name) |}.

(** A memory with an embedding of ints and a content, without id and
    metadata, and one with an embedding only. *)
Definition num_mem_bare : Py.MemoryRecord :=
  {| Py.mem_content := Some (JString "x"); Py.mem_embedding := Some [NInt 1; NInt 0];
     Py.mem_metadata := None; Py.mem_id := None |}.
Definition num_mem_no_content : Py.MemoryRecord :=
  {| Py.mem_content := None; Py.mem_embedding := Some [NFloat f_1];
     Py.mem_metadata := None; Py.mem_id := Some (JString "d") |}.

Definition num_loads_const (v : list number) (_ : string) : result (list number) := Ok v.
Definition num_load_const (m : list Py.MemoryRecord) (_ : string)
  : result (list Py.MemoryRecord) := Ok m.

(** ** Vocabulary of the further properties *)

(** [r] holds what lines 30 to 35 compute from [mem], field by field. *)
Definition result_of (query_vector : list float) (mem : MemoryRecord)
  (r : ScoredResult) : Prop :=
  exists embedding,
    mem_embedding mem = Some embedding /\ embedding <> [] /\
    mem_content mem = Some (res_content r) /\
    cosine_similarity query_vector embedding = Ok (res_score r) /\
    res_id r = dict_get (mem_id mem) (JString "unknown") /\
    res_metadata r = dict_get (mem_metadata mem) (JObject []).

(** ** [mcp/serena-local/api/config.py]: the quality tables

    The module holds two dict literals with string keys.  A dict literal is
    kept as the list of its items in the order written; no key is written
    twice, so that the first item found is the value of the key. *)

Definition CRF_MAP : list (string * Z) :=
  [ ("draft", 28); ("standard", 23); ("high", 18); ("lossless", 0) ]%string%Z.

Definition PRESET_MAP : list (string * string) :=
  [ ("draft", "ultrafast"); ("standard", "medium"); ("high", "medium");
    ("lossless", "veryslow") ]%string.

(** [d[key]]: the value, or a [KeyError] that carries the key. *)
Fixpoint subscript (V : Type) (d : list (string * V)) (key : string) : result V :=
  match d with
  | [] => Raise (KeyError key)
  | (k, v) :: rest => if String.eqb k key then Ok v else subscript rest key
  end.

(** ** [mcp/serena-local/worker/inpaint_worker.py]: the mock worker

    [process_video] touches the world in three ways: it reads the clock, it
    sleeps, and it prints lines to standard error.  The world records how
    often the clock was read, the durations slept and the lines printed. *)

Record World : Type := {
  clock_reads : nat;
  slept : list float;
  stderr : list string
}.

(** The literal [0.01] as a binary64 number. *)
Definition f_0_01 : float := S754_finite false 5764607523034235 (-59).

(** [str(n)] for a natural number, as an f-string renders it. *)
Definition str_nat (n : nat) : string := NilEmpty.string_of_uint (Nat.to_uint n).

Section Worker.
(** [clock n] is what the call number [n] of [time.time()] returns, and
    [format_1f x] is [format(x, ".1f")]. *)
Variable clock : nat -> float.
Variable format_1f : float -> string.

Definition time_time (w : World) : float * World :=
  (clock (clock_reads w),
   {| clock_reads := S (clock_reads w); slept := slept w; stderr := stderr w |}).

Definition time_sleep (secs : float) (w : World) : World :=
  {| clock_reads := clock_reads w; slept := slept w ++ [secs]; stderr := stderr w |}.

Definition print_stderr (msg : string) (w : World) : World :=
  {| clock_reads := clock_reads w; slept := slept w; stderr := stderr w ++ [msg] |}.

(** The f-string of lines 19 to 22. *)
Definition progress_message (processed total_frames : nat) (total_time : float)
  : string :=
  ("Completed " ++ str_nat processed ++ "/" ++ str_nat total_frames ++ " frames "
   ++ "in " ++ format_1f total_time ++ "s")%string.

(** The body of the loop, for the frame of index [i]. *)
Definition frame (total_frames : nat) (start_time : float) (w : World) (i : nat)
  : World :=
  let w := time_sleep f_0_01 w in
  let processed := i + 1 in
  if processed mod 10 =? 0 then
    let (now, w) := time_time w in
    let total_time := SFsub prec emax now start_time in
    print_stderr (progress_message processed total_frames total_time) w
  else w.

Definition process_video (video_path : string) (w : World) : World :=
  let total_frames := 100 in
  let (start_time, w) := time_time w in
  fold_left (frame total_frames start_time) (seq 0 total_frames) w.

(** The progress line number [j] (from [0]) of a run whose clock readings
    inside the loop start at reading [first_read]. *)
Definition progress_line (total_frames first_read : nat) (start_time : float)
  (j : nat) : string :=
  progress_message (10 * (j + 1)) total_frames
    (SFsub prec emax (clock (first_read + j)) start_time).

End Worker.

(** * Facts about binary64 arithmetic *)

Section Binary64.
Local Open Scope Z_scope.

Lemma digits2_log2 p : Zpos (digits2_pos p) = Z.log2 (Zpos p) + 1.
Proof.
  assert (Hs : forall q, digits2_pos q = Pos.size q) by (induction q; simpl; congruence).
  destruct p; simpl; rewrite ?Hs; lia.
Qed.

Lemma Zdigits2_log2 m : 0 < m -> Zdigits2 m = Z.log2 m + 1.
Proof. destruct m; try lia. intros _. apply digits2_log2. Qed.

Lemma shr_1_m mrs : 0 <= shr_m mrs -> shr_m (shr_1 mrs) = Z.shiftr (shr_m mrs) 1.
Proof.
  destruct mrs as [m r s]. simpl. intros Hm.
  rewrite Z.shiftr_div_pow2 by lia. change (2 ^ 1) with 2.
  destruct m as [|[p|p|]|p]; simpl; try lia; try reflexivity.
  - rewrite Pos2Z.inj_xI. apply Z.div_unique with (r := 1); lia.
  - rewrite Pos2Z.inj_xO. apply Z.div_unique with (r := 0); lia.
Qed.

Lemma iter_pos_shr_m p : forall mrs, 0 <= shr_m mrs ->
  shr_m (iter_pos shr_1 p mrs) = Z.shiftr (shr_m mrs) (Zpos p).
Proof.
  induction p as [p IH|p IH|]; intros mrs Hm; simpl.
  - assert (H1 : 0 <= shr_m (shr_1 mrs)).
    { rewrite shr_1_m by assumption. apply Z.shiftr_nonneg. assumption. }
    assert (H2 : 0 <= shr_m (iter_pos shr_1 p (shr_1 mrs))).
    { rewrite IH by assumption. apply Z.shiftr_nonneg. assumption. }
    rewrite IH, IH, shr_1_m by assumption.
    rewrite !Z.shiftr_shiftr by lia. f_equal. lia.
  - assert (H2 : 0 <= shr_m (iter_pos shr_1 p mrs)).
    { rewrite IH by assumption. apply Z.shiftr_nonneg. assumption. }
    rewrite IH, IH by assumption.
    rewrite !Z.shiftr_shiftr by lia. f_equal. lia.
  - apply shr_1_m. assumption.
Qed.

Lemma shr_record_of_loc_m m l : shr_m (shr_record_of_loc m l) = m.
Proof. destruct l as [|[]]; reflexivity. Qed.

Lemma shr_fexp_emin m e l : emin64 <= snd (shr_fexp prec emax m e l).
Proof.
  unfold shr_fexp, shr, fexp, emin64.
  destruct (Z.max (Zdigits2 m + e - prec) (emin prec emax) - e) eqn:E; simpl; lia.
Qed.

Lemma shr_fexp_magnitude m e l :
  0 < m -> emin64 < Zdigits2 m + e ->
  0 < shr_m (fst (shr_fexp prec emax m e l)) /\
  Zdigits2 (shr_m (fst (shr_fexp prec emax m e l))) + snd (shr_fexp prec emax m e l)
  = Zdigits2 m + e.
Proof.
  intros Hm Hmag. unfold shr_fexp, shr, fexp, emin64 in *.
  rewrite (Zdigits2_log2 Hm) in *.
  destruct (Z.max (Z.log2 m + 1 + e - prec) (emin prec emax) - e) as [|n|n] eqn:E;
    simpl; rewrite ?shr_record_of_loc_m, ?(Zdigits2_log2 Hm); try (split; [assumption|reflexivity]).
  rewrite iter_pos_shr_m by (rewrite shr_record_of_loc_m; lia).
  rewrite shr_record_of_loc_m.
  assert (Hn : Z.pos n <= Z.log2 m) by (unfold prec in *; lia).
  assert (Hpos : 0 < Z.shiftr m (Z.pos n)).
  { rewrite Z.shiftr_div_pow2 by lia.
    apply Z.div_str_pos. split; [apply Z.pow_pos_nonneg; lia|].
    apply Z.log2_le_pow2; assumption. }
  split; [assumption|].
  rewrite (Zdigits2_log2 Hpos), Z.log2_shiftr by assumption. lia.
Qed.

Lemma round_nearest_even_bounds m l :
  m <= round_nearest_even m l <= m + 1.
Proof. destruct l as [|[]]; simpl; try lia. destruct (Z.even m); lia. Qed.

Lemma Zdigits2_le a b : 0 < a -> a <= b -> Zdigits2 a <= Zdigits2 b.
Proof.
  intros Ha Hab. rewrite !Zdigits2_log2 by lia.
  apply Z.add_le_mono_r, Z.log2_le_mono, Hab.
Qed.

Lemma binary_round_aux_rounded s m e l :
  rounded s (binary_round_aux prec emax s m e l).
Proof.
  unfold binary_round_aux.
  destruct (shr_fexp prec emax m e l) as [mrs1 e1].
  pose proof (shr_fexp_emin (round_nearest_even (shr_m mrs1) (loc_of_shr_record mrs1)) e1 loc_Exact) as He.
  destruct (shr_fexp prec emax _ e1 loc_Exact) as [mrs2 e2]. simpl in He.
  destruct (shr_m mrs2); [reflexivity| |exact I].
  destruct (e2 <=? _); simpl; auto.
Qed.

(** No underflow to zero: a positive mantissa whose magnitude is above
    [emin] rounds to a finite number of at least that magnitude, or to an
    infinity. *)
Lemma binary_round_aux_magnitude s m e l :
  0 < m -> emin64 < Zdigits2 m + e ->
  binary_round_aux prec emax s m e l = S754_infinity s \/
  exists m' e', binary_round_aux prec emax s m e l = S754_finite s m' e' /\
                Zdigits2 m + e <= Zdigits2 (Zpos m') + e'.
Proof.
  intros Hm Hmag. unfold binary_round_aux.
  destruct (shr_fexp_magnitude e l Hm Hmag) as [H1 H2].
  destruct (shr_fexp prec emax m e l) as [mrs1 e1]. simpl in H1, H2.
  set (m2 := round_nearest_even (shr_m mrs1) (loc_of_shr_record mrs1)).
  pose proof (round_nearest_even_bounds (shr_m mrs1) (loc_of_shr_record mrs1)) as Hb.
  fold m2 in Hb.
  assert (Hm2 : 0 < m2) by lia.
  assert (Hd : Zdigits2 (shr_m mrs1) <= Zdigits2 m2) by (apply Zdigits2_le; lia).
  assert (Hmag2 : emin64 < Zdigits2 m2 + e1) by lia.
  destruct (shr_fexp_magnitude e1 loc_Exact Hm2 Hmag2) as [H3 H4].
  destruct (shr_fexp prec emax m2 e1 loc_Exact) as [mrs2 e2]. simpl in H3, H4.
  destruct (shr_m mrs2) as [|m3|m3] eqn:E3; try lia.
  destruct (e2 <=? emax - prec); [right|left; reflexivity].
  exists m3, e2. split; [reflexivity|]. lia.
Qed.

Lemma rounded_nonnegative x : rounded false x -> nonnegative x.
Proof. destruct x; simpl; auto. Qed.

Lemma square_nonnegative a : nonnegative (SFmul prec emax a a).
Proof.
  destruct a as [s|s| |s m e]; simpl; auto using xorb_nilpotent.
  apply rounded_nonnegative. rewrite xorb_nilpotent. apply binary_round_aux_rounded.
Qed.

Lemma binary_round_rounded s m e : rounded s (binary_round prec emax s m e).
Proof.
  unfold binary_round. destruct (shl_align _ _ _). apply binary_round_aux_rounded.
Qed.

Lemma SFadd_nonnegative x y :
  nonnegative x -> nonnegative y -> nonnegative (SFadd prec emax x y).
Proof.
  destruct x as [sx|sx| |sx mx ex], y as [sy|sy| |sy my ey]; simpl; auto;
    try (intros; subst; simpl; auto; fail).
  - destruct sx, sy; simpl; auto.
  - intros [-> _] [-> _]. simpl.
    apply rounded_nonnegative, binary_round_rounded.
Qed.

Lemma fold_add_nonnegative l : forall acc,
  nonnegative acc -> Forall nonnegative l ->
  nonnegative (fold_left (SFadd prec emax) l acc).
Proof.
  induction l as [|x l IH]; intros acc Ha Hl; simpl; [assumption|].
  inversion Hl; subst. apply IH; [apply SFadd_nonnegative|]; assumption.
Qed.

Lemma sum_squares_nonnegative (v : list float) : nonnegative (sum_squares v).
Proof.
  unfold sum_squares, py_sum. apply fold_add_nonnegative; [exact I|].
  apply Forall_forall. intros x Hx. apply in_map_iff in Hx.
  destruct Hx as [a [<- _]]. apply square_nonnegative.
Qed.

Lemma nonnegative_not_lt_zero x : nonnegative x -> SFltb x (S754_zero false) = false.
Proof.
  destruct x as [s|s| |s m e]; simpl; try reflexivity.
  - intros ->. reflexivity.
  - intros [-> _]. reflexivity.
Qed.

Lemma magnitude_ok (v : list float) :
  magnitude v = Ok (SFsqrt prec emax (sum_squares v)).
Proof.
  unfold magnitude, math_sqrt. simpl f_ltb.
  rewrite (nonnegative_not_lt_zero _ (sum_squares_nonnegative v)). reflexivity.
Qed.

Lemma div2_bounds n : 2 * Z.div2 n <= n <= 2 * Z.div2 n + 1.
Proof. generalize (Z.div2_odd n). destruct (Z.odd n); simpl; lia. Qed.

Lemma sqrt_core_magnitude m e :
  emin64 <= e ->
  let c := SFsqrt_core_binary prec emax (Zpos m) e in
  0 < fst (fst c) /\ -536 <= Zdigits2 (fst (fst c)) + snd (fst c).
Proof.
  intros He. unfold SFsqrt_core_binary.
  set (d := Zdigits2 (Z.pos m)).
  set (e' := Z.min (fexp prec emax (Z.div2 (d + e + 1))) (Z.div2 e)).
  assert (He' : 2 * e' <= e) by (pose proof (div2_bounds e); unfold e'; lia).
  clearbody e'.
  set (m' := match e - 2 * e' with
             | Z.pos _ => Z.shiftl (Z.pos m) (e - 2 * e')
             | 0 => Z.pos m
             | Z.neg _ => 0
             end).
  assert (Hm' : m' = Z.pos m * 2 ^ (e - 2 * e')).
  { unfold m'. destruct (e - 2 * e') eqn:E.
    - rewrite Z.pow_0_r. lia.
    - rewrite Z.shiftl_mul_pow2 by lia. reflexivity.
    - lia. }
  clearbody m'.
  pose proof (Z.log2_spec (Z.pos m) eq_refl) as [Hlog _].
  pose proof (Z.log2_nonneg (Z.pos m)) as Hl.
  set (k := Z.div2 (Z.log2 (Z.pos m) + (e - 2 * e'))).
  pose proof (div2_bounds (Z.log2 (Z.pos m) + (e - 2 * e'))) as Hk. fold k in Hk.
  assert (Hk0 : 0 <= k) by lia.
  assert (H2k : 2 ^ k * 2 ^ k <= m').
  { rewrite <- Z.pow_add_r, Hm' by lia.
    apply Z.le_trans with (2 ^ (Z.log2 (Z.pos m) + (e - 2 * e'))).
    - apply Z.pow_le_mono_r; lia.
    - rewrite Z.pow_add_r by lia. apply Z.mul_le_mono_nonneg_r; [|assumption].
      apply Z.pow_nonneg; lia. }
  assert (Hp : 0 < 2 ^ k) by (apply Z.pow_pos_nonneg; lia).
  pose proof (Z.sqrtrem_spec m') as Hs.
  destruct (Z.sqrtrem m') as [q r]. simpl.
  destruct Hs as [Hq Hr]; [nia|].
  assert (Hle : 2 ^ k <= q) by nia.
  assert (Hq0 : 0 < q) by lia.
  split; [assumption|].
  rewrite (Zdigits2_log2 Hq0).
  apply Z.log2_le_pow2 in Hle; [|assumption].
  unfold emin64, emin, emax, prec in *. lia.
Qed.

Lemma SFsqrt_in_range x : nonnegative x -> in_sqrt_range (SFsqrt prec emax x).
Proof.
  destruct x as [s|s| |s m e]; simpl; auto.
  - intros ->. reflexivity.
  - intros [-> He].
    pose proof (sqrt_core_magnitude m He) as Hc.
    destruct (SFsqrt_core_binary prec emax (Z.pos m) e) as [[q e'] l].
    simpl in Hc. destruct Hc as [Hq Hmag].
    destruct (@binary_round_aux_magnitude false q e' l Hq) as [Hinf|[m' [e'' [Hfin Hge]]]].
    + unfold emin64, emin, emax, prec. lia.
    + rewrite Hinf. reflexivity.
    + rewrite Hfin. simpl. split; [reflexivity|]. simpl in Hge. lia.
Qed.

Lemma product_of_magnitudes_nonzero a b :
  in_sqrt_range a -> in_sqrt_range b ->
  SFeqb a (S754_zero false) = false -> SFeqb b (S754_zero false) = false ->
  SFeqb (SFmul prec emax a b) (S754_zero false) = false.
Proof.
  intros Ha Hb Za Zb.
  destruct a as [sa|sa| |sa ma ea]; try discriminate Za;
    destruct b as [sb|sb| |sb mb eb]; try discriminate Zb;
    unfold in_sqrt_range in Ha, Hb; try reflexivity;
    try (subst; reflexivity).
  - destruct Hb as [-> _]. subst. reflexivity.
  - destruct Ha as [-> _]. subst. reflexivity.
  - destruct Ha as [-> Ha], Hb as [-> Hb]. unfold SFmul, xorb.
    destruct (@binary_round_aux_magnitude false (Z.pos (ma * mb)) (ea + eb) loc_Exact)
      as [Hinf|[m' [e' [Hfin _]]]].
    + lia.
    + pose proof (Z.log2_mul_below (Z.pos ma) (Z.pos mb)) as Hlog.
      rewrite !Zdigits2_log2 in * by lia.
      rewrite Pos2Z.inj_mul. unfold emin64, emin, emax, prec. lia.
    + rewrite Hinf. reflexivity.
    + rewrite Hfin. reflexivity.
Qed.

(** [cosine_similarity] never raises on floats. *)
Lemma cosine_similarity_total (v1 v2 : list float) :
  exists r, cosine_similarity v1 v2 = Ok r.
Proof.
  unfold cosine_similarity. rewrite !magnitude_ok. simpl bind.
  destruct (negb (truthy _) || negb (truthy _)) eqn:E; [eexists; reflexivity|].
  apply orb_false_elim in E. destruct E as [E1 E2].
  apply negb_false_iff in E1, E2. unfold truthy in E1, E2.
  apply negb_true_iff in E1, E2. simpl f_eqb in E1, E2. simpl f_zero in E1, E2.
  unfold truediv. simpl f_eqb. simpl f_zero. simpl f_mul.
  rewrite product_of_magnitudes_nonzero; auto using SFsqrt_in_range, sum_squares_nonnegative.
  eexists; reflexivity.
Qed.

End Binary64.

(** * Facts about [cosine_similarity] on floats *)




Lemma zip_products_by_index (v1 : list float) : forall v2,
  map (fun ab => f_mul (fst ab) (snd ab)) (zip v1 v2)
  = map (fun i => f_mul (nth i v1 f_zero) (nth i v2 f_zero))
        (seq 0 (Nat.min (length v1) (length v2))).
Proof.
  induction v1 as [|a v1 IH]; intros [|b v2]; simpl; try reflexivity.
  f_equal. rewrite <- seq_shift, map_map. apply IH.
Qed.


Lemma zero_vector_sum_squares v : zero_vector v -> sum_squares v = S754_zero false.
Proof.
  unfold sum_squares, py_sum. simpl f_zero.
  induction 1 as [|x l Hx Hl IH]; simpl; [reflexivity|].
  destruct x as [[]|[]| |[] ? ?]; try discriminate Hx; exact IH.
Qed.

Lemma zero_vector_magnitude v : zero_vector v -> is_zero_magnitude v.
Proof.
  intros Hz. exists (S754_zero false). rewrite magnitude_ok, zero_vector_sum_squares by assumption.
  split; reflexivity.
Qed.

(** * The order of floats *)

Section Order.
Local Open Scope Z_scope.

Lemma SFcompare_position x y :
  is_nan x = false -> is_nan y = false ->
  match SFcompare x y with
  | Some Lt => lex_lt (position x) (position y)
  | Some Eq => position x = position y
  | Some Gt => lex_lt (position y) (position x)
  | None => False
  end.
Proof.
  intros Hx Hy.
  destruct x as [sx|[]| |[] mx ex]; try discriminate Hx;
    destruct y as [sy|[]| |[] my ey]; try discriminate Hy;
    simpl; try lia; try reflexivity;
    change (Pos.compare_cont Eq mx my) with (Pos.compare mx my);
    destruct (Z.compare_spec ex ey); try lia;
    destruct (Pos.compare_spec mx my); simpl; subst; try reflexivity; lia.
Qed.

Lemma SFltb_position x y :
  is_nan x = false -> is_nan y = false ->
  (SFltb x y = true <-> lex_lt (position x) (position y)).
Proof.
  intros Hx Hy. pose proof (SFcompare_position x y Hx Hy) as H.
  unfold SFltb. destruct (SFcompare x y) as [[]|]; try contradiction;
    (split; [try discriminate|]); try (intros; assumption); try reflexivity;
    destruct (position x) as [[a b] c], (position y) as [[a' b'] c'];
    unfold lex_lt in *; try (inversion H; subst); lia.
Qed.

Lemma SFleb_position x y :
  is_nan x = false -> is_nan y = false ->
  (SFleb x y = true <-> lex_le (position x) (position y)).
Proof.
  intros Hx Hy. pose proof (SFcompare_position x y Hx Hy) as H.
  unfold SFleb, lex_le. destruct (SFcompare x y) as [[]|]; try contradiction;
    (split; [try discriminate|]); auto;
    destruct (position x) as [[a b] c], (position y) as [[a' b'] c'];
    unfold lex_lt in *; intros [?|E]; try (inversion E; subst); lia.
Qed.

Lemma lex_le_trans p q r : lex_le p q -> lex_le q r -> lex_le p r.
Proof.
  destruct p as [[a b] c], q as [[a' b'] c'], r as [[a'' b''] c''].
  unfold lex_le, lex_lt. intros [H1|E1] [H2|E2];
    try (inversion E1; subst); try (inversion E2; subst); auto; left; lia.
Qed.

Lemma lex_total p q : lex_lt p q \/ lex_le q p.
Proof.
  destruct p as [[a b] c], q as [[a' b'] c']. unfold lex_le, lex_lt.
  destruct (Z.lt_total a a') as [?|[?|?]]; [lia| |lia].
  destruct (Z.lt_total b b') as [?|[?|?]]; [lia| |lia].
  destruct (Z.lt_total c c') as [?|[?|?]]; [lia| |lia].
  right. right. subst. reflexivity.
Qed.

End Order.

Lemma SFeqb_position x y :
  SFeqb x y = true -> is_nan x = false /\ is_nan y = false /\ position x = position y.
Proof.
  intros H.
  assert (Hx : is_nan x = false) by (destruct x; try reflexivity; discriminate H).
  assert (Hy : is_nan y = false) by (destruct x, y; try reflexivity; discriminate H).
  pose proof (SFcompare_position x y Hx Hy) as Hc.
  unfold SFeqb in H. destruct (SFcompare x y) as [[]|]; try discriminate H. auto.
Qed.

Lemma lex_lt_irrefl p : ~ lex_lt p p.
Proof. destruct p as [[a b] c]. unfold lex_lt. lia. Qed.

Lemma equal_not_less a b v :
  SFeqb a v = true -> SFeqb b v = true -> SFltb a b = false.
Proof.
  intros Ha Hb.
  apply SFeqb_position in Ha, Hb. destruct Ha as [Na [_ Pa]], Hb as [Nb [_ Pb]].
  destruct (SFltb a b) eqn:E; [|reflexivity].
  apply SFltb_position in E; try assumption.
  rewrite Pa, <- Pb in E. destruct (lex_lt_irrefl _ E).
Qed.

Lemma less_then_not_greater x y : SFltb x y = true -> SFleb x y = true.
Proof. unfold SFltb, SFleb. destruct (SFcompare x y) as [[]|]; auto. Qed.

Lemma not_less_then_greater x y :
  is_nan x = false -> is_nan y = false -> SFltb x y = false -> SFleb y x = true.
Proof.
  intros Hx Hy H. apply SFleb_position; try assumption.
  destruct (lex_total (position x) (position y)) as [Hlt|Hle]; [|assumption].
  apply SFltb_position in Hlt; try assumption. congruence.
Qed.

Lemma SFleb_trans x y z :
  is_nan x = false -> is_nan y = false -> is_nan z = false ->
  SFleb x y = true -> SFleb y z = true -> SFleb x z = true.
Proof.
  intros Hx Hy Hz H1 H2.
  apply SFleb_position in H1, H2; try assumption.
  apply SFleb_position; try assumption. eapply lex_le_trans; eassumption.
Qed.

(** Order facts used by the binary search. *)
Lemma lt_le_trans x y z :
  is_nan z = false ->
  SFltb x y = true -> SFleb y z = true -> SFltb x z = true.
Proof.
  intros Hz Hxy Hyz.
  assert (Hx : is_nan x = false) by (destruct x; try reflexivity; discriminate Hxy).
  assert (Hy : is_nan y = false) by (destruct x, y; try reflexivity; discriminate Hxy).
  apply SFltb_position in Hxy; try assumption.
  apply SFleb_position in Hyz; try assumption.
  apply SFltb_position; try assumption.
  destruct (position x) as [[a b] c], (position y) as [[a' b'] c'],
    (position z) as [[a'' b''] c''].
  unfold lex_le, lex_lt in *. destruct Hyz as [H|E]; [|inversion E; subst; assumption].
  lia.
Qed.

Lemma not_lt_le_trans x y z :
  is_nan x = false -> is_nan y = false -> is_nan z = false ->
  SFltb x y = false -> SFleb z y = true -> SFltb x z = false.
Proof.
  intros Hx Hy Hz Hxy Hzy.
  destruct (SFltb x z) eqn:E; [|reflexivity].
  rewrite (lt_le_trans x z y Hy E Hzy) in Hxy. discriminate.
Qed.

(** * Lists *)

Lemma SFeqb_refl x : is_nan x = false -> SFeqb x x = true.
Proof.
  intros Hx. pose proof (SFcompare_position x x Hx Hx) as H.
  unfold SFeqb. destruct (SFcompare x x) as [[]|]; try reflexivity;
    try contradiction; destruct (lex_lt_irrefl _ H).
Qed.

Section ListFacts.
Variables A B : Type.

Lemma strongly_sorted_middle (R : A -> A -> Prop) l1 a l2 b l3 :
  StronglySorted R (l1 ++ a :: l2 ++ b :: l3) -> R a b.
Proof.
  induction l1 as [|x l1 IH]; simpl; intros H; inversion H as [|? ? Hs Hf]; subst.
  - rewrite Forall_forall in Hf. apply Hf, in_or_app. right. left. reflexivity.
  - apply IH. assumption.
Qed.

Lemma strongly_sorted_filter (R : A -> A -> Prop) p l :
  StronglySorted R l -> StronglySorted R (filter p l).
Proof.
  induction 1 as [|x l Hs IH Hf]; simpl; [constructor|].
  destruct (p x); [|assumption].
  constructor; [assumption|].
  rewrite Forall_forall in *. intros y Hy. apply filter_In in Hy. apply Hf, Hy.
Qed.

Lemma nth_error_two_split (l : list A) i j a b :
  i < j -> nth_error l i = Some a -> nth_error l j = Some b ->
  exists l1 l2 l3, l = l1 ++ a :: l2 ++ b :: l3.
Proof.
  intros Hij Hi Hj.
  apply nth_error_split in Hi. destruct Hi as [l1 [l' [-> Hlen]]].
  rewrite nth_error_app2 in Hj by lia.
  destruct (j - length l1) as [|n] eqn:E; [lia|]. simpl in Hj.
  apply nth_error_split in Hj. destruct Hj as [l2 [l3 [-> _]]].
  exists l1, l2, l3. reflexivity.
Qed.

Lemma nth_error_firstn_some n (l : list A) i x :
  nth_error (firstn n l) i = Some x -> nth_error l i = Some x.
Proof.
  revert l i. induction n as [|n IH]; intros [|y l] [|i]; simpl; try discriminate; auto.
Qed.

Lemma Forall2_firstn (R : A -> B -> Prop) n l1 l2 :
  Forall2 R l1 l2 -> Forall2 R (firstn n l1) (firstn n l2).
Proof.
  intros H. revert n. induction H; intros [|n]; simpl; constructor; auto.
Qed.

Lemma Forall2_combine_in (R : A -> B -> Prop) l1 l2 x y :
  Forall2 R l1 l2 -> In (x, y) (combine l1 l2) -> R x y.
Proof.
  induction 1 as [|a b l1 l2 Hab H IH]; simpl; [contradiction|].
  intros [E|Hin]; [inversion E; subst; assumption|auto].
Qed.

Lemma Forall2_map_fst_snd (R : A -> B -> Prop) (s : list (A * B)) :
  Forall (fun p => R (fst p) (snd p)) s -> Forall2 R (map fst s) (map snd s).
Proof. induction 1; simpl; constructor; auto. Qed.

Lemma map_fst_combine (l1 : list A) : forall (l2 : list B),
  length l2 = length l1 -> map fst (combine l1 l2) = l1.
Proof.
  induction l1 as [|a l1 IH]; intros [|b l2] H; simpl in *; try discriminate; auto.
  f_equal. apply IH. lia.
Qed.

Lemma map_snd_combine (l1 : list A) : forall (l2 : list B),
  length l2 = length l1 -> map snd (combine l1 l2) = l2.
Proof.
  induction l1 as [|a l1 IH]; intros [|b l2] H; simpl in *; try discriminate; auto.
  f_equal. apply IH. lia.
Qed.

Lemma in_firstn n : forall (l : list A) x, In x (firstn n l) -> In x l.
Proof.
  induction n as [|n IH]; intros [|y l] x; simpl; try contradiction.
  intros [E|Hin]; auto.
Qed.

Lemma NoDup_firstn n (l : list A) : NoDup l -> NoDup (firstn n l).
Proof.
  intros H. revert n. induction H as [|x l Hx H IH]; intros [|n]; simpl; try constructor; auto.
  intros Hin. apply Hx. apply in_firstn with n. assumption.
Qed.

End ListFacts.

Lemma strongly_sorted_lt_NoDup (l : list nat) : StronglySorted lt l -> NoDup l.
Proof.
  induction 1 as [|x l Hs IH Hf]; constructor; [|assumption].
  intros Hin. rewrite Forall_forall in Hf. specialize (Hf x Hin). lia.
Qed.

Lemma combine_tag_sorted (A : Type) (l : list A) : forall tags,
  StronglySorted lt tags -> StronglySorted (@tag_lt A) (combine l tags).
Proof.
  induction l as [|a l IH]; intros tags H; simpl; [constructor|].
  destruct tags as [|t tags]; [constructor|].
  inversion H as [|? ? Hs Hf]; subst. constructor; [apply IH; assumption|].
  rewrite Forall_forall in *. intros [x u] Hin. apply in_combine_r in Hin.
  unfold tag_lt. simpl. apply Hf, Hin.
Qed.

Section ListOrder.
Variable A : Type.

Lemma strongly_sorted_app (R : A -> A -> Prop) l1 l2 :
  StronglySorted R l1 -> StronglySorted R l2 ->
  (forall a b, In a l1 -> In b l2 -> R a b) ->
  StronglySorted R (l1 ++ l2).
Proof.
  induction 1 as [|x l1 Hs IH Hf]; simpl; intros H2 H; [assumption|].
  constructor; [apply IH; auto|].
  apply Forall_app. split; [assumption|].
  apply Forall_forall. intros b Hb. apply H; [left; reflexivity|assumption].
Qed.

Lemma strongly_sorted_app_inv (R : A -> A -> Prop) l1 l2 :
  StronglySorted R (l1 ++ l2) ->
  StronglySorted R l1 /\ StronglySorted R l2 /\
  (forall a b, In a l1 -> In b l2 -> R a b).
Proof.
  induction l1 as [|x l1 IH]; simpl; intros H.
  - repeat split; [constructor|assumption|contradiction].
  - inversion H as [|? ? Hs Hf]; subst. destruct (IH Hs) as [H1 [H2 H12]].
    apply Forall_app in Hf. destruct Hf as [Hf1 Hf2].
    repeat split; [constructor; assumption|assumption|].
    intros a b [<-|Ha] Hb; [|auto].
    rewrite Forall_forall in Hf2. auto.
Qed.

Lemma strongly_sorted_rev (R : A -> A -> Prop) l :
  StronglySorted R l -> StronglySorted (fun a b => R b a) (rev l).
Proof.
  induction 1 as [|x l Hs IH Hf]; simpl; [constructor|].
  apply strongly_sorted_app; [assumption|repeat constructor|].
  intros a b Ha [<-|[]]. rewrite Forall_forall in Hf. apply Hf.
  apply in_rev. assumption.
Qed.

Lemma strongly_sorted_impl (R S : A -> A -> Prop) l :
  (forall a b, In a l -> In b l -> R a b -> S a b) ->
  StronglySorted R l -> StronglySorted S l.
Proof.
  intros H Hs. induction Hs as [|x l Hs IH Hf]; constructor.
  - apply IH. intros a b Ha Hb. apply H; right; assumption.
  - rewrite Forall_forall in *. intros b Hb. apply H; [left; reflexivity|right; assumption|auto].
Qed.

Lemma strongly_sorted_nth (R : A -> A -> Prop) l i j a b :
  StronglySorted R l -> i < j ->
  nth_error l i = Some a -> nth_error l j = Some b -> R a b.
Proof.
  intros Hs Hij Hi Hj.
  destruct (nth_error_two_split _ Hij Hi Hj) as [l1 [l2 [l3 ->]]].
  apply strongly_sorted_middle in Hs. assumption.
Qed.

End ListOrder.

(** * The sort *)

Section SortPermutation.
Variable A : Type.
Variable key : A -> float.

(** *** Runs *)

Lemma ascending_run_app l : forall prev run rest,
  ascending_run key prev l = (run, rest) -> l = run ++ rest.
Proof.
  induction l as [|x l IH]; simpl; intros prev run rest H.
  - inversion H; reflexivity.
  - destruct (islt key x prev); [inversion H; reflexivity|].
    destruct (ascending_run key x l) as [run' rest'] eqn:E.
    inversion H; subst. simpl. f_equal. eapply IH; eassumption.
Qed.

Lemma descending_run_app l : forall prev run rest,
  descending_run key prev l = (run, rest) -> l = run ++ rest.
Proof.
  induction l as [|x l IH]; simpl; intros prev run rest H.
  - inversion H; reflexivity.
  - destruct (islt key x prev); [|inversion H; reflexivity].
    destruct (descending_run key x l) as [run' rest'] eqn:E.
    inversion H; subst. simpl. f_equal. eapply IH; eassumption.
Qed.

Lemma count_run_perm l run rest :
  count_run key l = (run, rest) -> Permutation (run ++ rest) l.
Proof.
  unfold count_run. destruct l as [|x0 [|x1 l]]; intros H.
  - inversion H; reflexivity.
  - inversion H; reflexivity.
  - destruct (islt key x1 x0).
    + destruct (descending_run key x0 (x1 :: l)) as [run' rest'] eqn:E.
      inversion H; subst. apply descending_run_app in E. rewrite E.
      apply Permutation_app_tail with (l' := x0 :: run').
      symmetry. apply Permutation_rev.
    + destruct (ascending_run key x0 (x1 :: l)) as [run' rest'] eqn:E.
      inversion H; subst. apply ascending_run_app in E. rewrite E. reflexivity.
Qed.

Lemma binary_insert_perm s x : Permutation (binary_insert key s x) (s ++ [x]).
Proof.
  unfold binary_insert. set (n := bisect _ _ _ _ _ _).
  rewrite <- (firstn_skipn n s) at 3. rewrite <- app_assoc.
  apply Permutation_app_head. rewrite Permutation_app_comm. reflexivity.
Qed.

Lemma binarysort_perm rest : forall s,
  Permutation (binarysort key s rest) (s ++ rest).
Proof.
  unfold binarysort. induction rest as [|x rest IH]; intros s; simpl.
  - rewrite app_nil_r. reflexivity.
  - rewrite IH, binary_insert_perm, <- app_assoc. reflexivity.
Qed.

Lemma list_sort_forward_perm l : Permutation (list_sort_forward key l) l.
Proof.
  unfold list_sort_forward. destruct (count_run key l) as [run rest] eqn:E.
  rewrite binarysort_perm. apply count_run_perm. assumption.
Qed.

Lemma list_sort_reverse_perm l : Permutation (list_sort_reverse key l) l.
Proof.
  unfold list_sort_reverse. rewrite <- Permutation_rev, list_sort_forward_perm.
  symmetry. apply Permutation_rev.
Qed.

End SortPermutation.

Section SortSearch.
Variable A : Type.
Variable key : A -> float.

Lemma no_nan_in l x : no_nan key l -> In x l -> is_nan (key x) = false.
Proof. unfold no_nan. rewrite Forall_forall. auto. Qed.

Lemma ascending_run_sorted l : forall prev run rest,
  no_nan key (prev :: l) ->
  ascending_run key prev l = (run, rest) -> ascending key (prev :: run).
Proof.
  induction l as [|x l IH]; simpl; intros prev run rest Hn H.
  - inversion H; subst. repeat constructor.
  - destruct (islt key x prev) eqn:E; [inversion H; subst; repeat constructor|].
    destruct (ascending_run key x l) as [run' rest'] eqn:Er.
    inversion H; subst.
    inversion Hn as [|? ? Hp Hn']; subst.
    pose proof (IH _ _ _ Hn' Er) as Hs.
    assert (Hpx : SFleb (key prev) (key x) = true).
    { apply not_less_then_greater; try assumption.
      eapply no_nan_in; [exact Hn'|]. left. reflexivity. }
    constructor; [assumption|]. constructor; [assumption|].
    inversion Hs as [|? ? _ Hf]; subst.
    apply ascending_run_app in Er.
    rewrite Forall_forall in *. intros z Hz.
    apply SFleb_trans with (y := key x); auto.
    + apply Hn'. left. reflexivity.
    + apply Hn'. right. rewrite Er. apply in_or_app. left. assumption.
Qed.

Lemma descending_run_sorted l : forall prev run rest,
  no_nan key (prev :: l) ->
  descending_run key prev l = (run, rest) -> strictly_descending key (prev :: run).
Proof.
  induction l as [|x l IH]; simpl; intros prev run rest Hn H.
  - inversion H; subst. repeat constructor.
  - destruct (islt key x prev) eqn:E; [|inversion H; subst; repeat constructor].
    destruct (descending_run key x l) as [run' rest'] eqn:Er.
    inversion H; subst.
    inversion Hn as [|? ? Hp Hn']; subst.
    pose proof (IH _ _ _ Hn' Er) as Hs.
    constructor; [assumption|]. constructor; [assumption|].
    inversion Hs as [|? ? _ Hf]; subst.
    rewrite Forall_forall in *. intros z Hz.
    apply lt_le_trans with (y := key x); auto.
    apply less_then_not_greater. assumption.
Qed.

Lemma count_run_sorted l run rest :
  no_nan key l -> count_run key l = (run, rest) -> ascending key run.
Proof.
  unfold count_run. destruct l as [|x0 [|x1 l]]; intros Hn H.
  - inversion H; constructor.
  - inversion H; repeat constructor.
  - destruct (islt key x1 x0).
    + destruct (descending_run key x0 (x1 :: l)) as [run' rest'] eqn:E.
      inversion H; subst.
      apply descending_run_sorted in E; [|assumption].
      apply strongly_sorted_rev in E.
      revert E. apply strongly_sorted_impl.
      intros a b _ _. apply less_then_not_greater.
    + destruct (ascending_run key x0 (x1 :: l)) as [run' rest'] eqn:E.
      inversion H; subst. eapply ascending_run_sorted; eassumption.
Qed.

(** *** The binary search *)

Lemma bisect_step fuel s pivot l r :
  bisect key (S fuel) s pivot l r
  = if l <? r then
      match nth_error s (l + (r - l) / 2) with
      | Some y =>
          if islt key pivot y then bisect key fuel s pivot l (l + (r - l) / 2)
          else bisect key fuel s pivot (l + (r - l) / 2 + 1) r
      | None => l
      end
    else l.
Proof. reflexivity. Qed.

(** The search interval shrinks at every step, so a fuel of [r - l] is
    enough, whatever the comparisons answer. *)
Lemma bisect_fuel s pivot : forall fuel fuel' l r,
  r <= length s -> r - l <= fuel -> r - l <= fuel' ->
  bisect key fuel s pivot l r = bisect key fuel' s pivot l r.
Proof.
  induction fuel as [|fuel IH]; intros fuel' l r Hr Hf Hf'.
  - destruct fuel' as [|fuel']; [reflexivity|]. rewrite bisect_step.
    destruct (l <? r) eqn:E; [|reflexivity]. apply Nat.ltb_lt in E. lia.
  - destruct fuel' as [|fuel'].
    + rewrite bisect_step. destruct (l <? r) eqn:E; [|reflexivity].
      apply Nat.ltb_lt in E. lia.
    + rewrite !bisect_step. destruct (l <? r) eqn:E; [|reflexivity].
      apply Nat.ltb_lt in E.
      pose proof (Nat.div_lt (r - l) 2) as Hdiv.
      destruct (nth_error s (l + (r - l) / 2)) as [y|]; [|reflexivity].
      destruct (islt key pivot y); apply IH; lia.
Qed.

Lemma bisect_spec s pivot :
  ascending key s -> no_nan key s -> is_nan (key pivot) = false ->
  forall fuel l r,
    l <= r -> r <= length s -> r - l <= fuel ->
    (forall i y, i < l -> nth_error s i = Some y -> islt key pivot y = false) ->
    (forall i y, r <= i -> nth_error s i = Some y -> islt key pivot y = true) ->
    bisect key fuel s pivot l r <= length s /\
    (forall i y, i < bisect key fuel s pivot l r ->
                 nth_error s i = Some y -> islt key pivot y = false) /\
    (forall i y, bisect key fuel s pivot l r <= i ->
                 nth_error s i = Some y -> islt key pivot y = true).
Proof.
  intros Hs Hn Hp. induction fuel as [|fuel IH]; intros l r Hlr Hr Hf Hlo Hhi;
    [simpl|rewrite bisect_step].
  - assert (l = r) by lia. subst. repeat split; [lia|assumption|assumption].
  - destruct (l <? r) eqn:E.
    2:{ apply Nat.ltb_ge in E. assert (l = r) by lia. subst.
        repeat split; [lia|assumption|assumption]. }
    apply Nat.ltb_lt in E.
    pose proof (Nat.div_lt (r - l) 2) as Hdiv.
    pose proof (Nat.Div0.div_le_upper_bound (r - l) 2 (r - l)) as Hdiv2.
    set (p := l + (r - l) / 2) in *.
    assert (Hpr : l <= p < r) by (unfold p; lia).
    destruct (nth_error s p) as [y|] eqn:Ey.
    2:{ apply nth_error_None in Ey. lia. }
    assert (Hy : is_nan (key y) = false).
    { eapply no_nan_in; [exact Hn|]. eapply nth_error_In; eassumption. }
    destruct (islt key pivot y) eqn:Ec.
    + apply IH; try lia; try assumption.
      intros i z Hi Hz.
      destruct (Nat.eq_dec i p) as [->|Hne]; [congruence|].
      unfold islt in *. simpl in *.
      apply lt_le_trans with (y := key y); try assumption.
      * eapply no_nan_in; [exact Hn|]. eapply nth_error_In; eassumption.
      * apply (@strongly_sorted_nth _ _ s p i y z Hs); [lia|assumption|assumption].
    + apply IH; try lia; try assumption.
      intros i z Hi Hz.
      destruct (Nat.eq_dec i p) as [->|Hne]; [congruence|].
      unfold islt in *. simpl in *.
      apply not_lt_le_trans with (y := key y); try assumption.
      * eapply no_nan_in; [exact Hn|]. eapply nth_error_In; eassumption.
      * apply (@strongly_sorted_nth _ _ s i p z y Hs); [lia|assumption|assumption].
Qed.

Lemma bisect_position s pivot :
  ascending key s -> no_nan key s -> is_nan (key pivot) = false ->
  Forall (fun y => islt key pivot y = false)
         (firstn (bisect key (length s) s pivot 0 (length s)) s) /\
  Forall (fun y => islt key pivot y = true)
         (skipn (bisect key (length s) s pivot 0 (length s)) s).
Proof.
  intros Hs Hn Hp.
  assert (H0 : forall i y, i < 0 -> nth_error s i = Some y -> islt key pivot y = false)
    by (intros i y Hi; lia).
  assert (H1 : forall i y, length s <= i -> nth_error s i = Some y ->
                           islt key pivot y = true).
  { intros i y Hi Hy. assert (Hsome : nth_error s i <> None) by congruence.
    apply nth_error_Some in Hsome. lia. }
  destruct (@bisect_spec s pivot Hs Hn Hp (length s) 0 (length s)
              (Nat.le_0_l _) (Nat.le_refl _) (Nat.le_sub_l _ _) H0 H1)
    as [Hle [Hlo Hhi]].
  set (n := bisect _ _ _ _ _ _) in *. split; apply Forall_forall; intros y Hy.
  - apply In_nth_error in Hy. destruct Hy as [i Hi].
    assert (Hlt : i < n).
    { assert (Hsome : nth_error (firstn n s) i <> None) by congruence.
      apply nth_error_Some in Hsome. rewrite length_firstn in Hsome. lia. }
    apply nth_error_firstn_some in Hi. eapply Hlo; eassumption.
  - apply In_nth_error in Hy. destruct Hy as [i Hi].
    rewrite nth_error_skipn in Hi. eapply Hhi; [|eassumption]. lia.
Qed.

End SortSearch.

Section SortOrder.
Variable A : Type.
Variable key : A -> float.

Lemma no_nan_perm l l' : Permutation l l' -> no_nan key l -> no_nan key l'.
Proof. unfold no_nan. intros H. rewrite H. auto. Qed.

Lemma binary_insert_sorted s x :
  ascending key s -> no_nan key s -> is_nan (key x) = false ->
  ascending key (binary_insert key s x).
Proof.
  intros Hs Hn Hx. destruct (@bisect_position _ key s x Hs Hn Hx) as [Hlo Hhi].
  unfold binary_insert. set (n := bisect _ _ _ _ _ _) in *.
  pose proof Hs as Hs'. unfold ascending in Hs'.
  rewrite <- (firstn_skipn n s) in Hs'.
  apply strongly_sorted_app_inv in Hs'. destruct Hs' as [H1 [H2 H12]].
  rewrite Forall_forall in Hlo, Hhi.
  assert (Hin : forall y, In y s -> is_nan (key y) = false)
    by (intros y Hy; eapply no_nan_in; eassumption).
  apply strongly_sorted_app; [assumption| |].
  - constructor; [assumption|]. apply Forall_forall. intros y Hy.
    apply less_then_not_greater. apply Hhi. assumption.
  - intros a b Ha [<-|Hb]; [|auto].
    apply not_less_then_greater; auto.
    + apply Hin. rewrite <- (firstn_skipn n s). apply in_or_app. left. assumption.
    + apply Hlo. assumption.
Qed.

Lemma binarysort_sorted rest : forall s,
  ascending key s -> no_nan key (s ++ rest) ->
  ascending key (binarysort key s rest).
Proof.
  unfold binarysort. induction rest as [|x rest IH]; intros s Hs Hn; simpl; [assumption|].
  unfold no_nan in Hn. rewrite Forall_app in Hn. destruct Hn as [Hn1 Hn2].
  inversion Hn2 as [|? ? Hx Hn3]; subst.
  apply IH; [apply binary_insert_sorted; assumption|].
  unfold no_nan. rewrite Forall_app. split; [|assumption].
  apply (@no_nan_perm (s ++ [x])); [symmetry; apply binary_insert_perm|].
  unfold no_nan. rewrite Forall_app. split; [assumption|repeat constructor; assumption].
Qed.

Lemma list_sort_forward_sorted l :
  no_nan key l -> ascending key (list_sort_forward key l).
Proof.
  intros Hn. unfold list_sort_forward.
  destruct (count_run key l) as [run rest] eqn:E.
  apply binarysort_sorted; [eapply count_run_sorted; eassumption|].
  apply (@no_nan_perm l); [symmetry; eapply count_run_perm; eassumption|assumption].
Qed.

Lemma list_sort_reverse_descending l :
  no_nan key l -> descending key (list_sort_reverse key l).
Proof.
  intros Hn. unfold list_sort_reverse, descending.
  apply (strongly_sorted_rev (R := fun a b => SFleb (key a) (key b) = true)).
  apply list_sort_forward_sorted.
  apply (@no_nan_perm l); [apply Permutation_rev|assumption].
Qed.

(** *** Stability *)

Lemma filter_greater_empty v x l :
  has_score key v x = true ->
  Forall (fun y => islt key x y = true) l ->
  filter (has_score key v) l = [].
Proof.
  intros Hx. induction 1 as [|y l Hy Hl IH]; simpl; [reflexivity|].
  destruct (has_score key v y) eqn:E; [|assumption].
  unfold has_score, islt in *. simpl in *.
  rewrite (equal_not_less _ _ _ Hx E) in Hy. discriminate.
Qed.

Lemma binary_insert_filter v s x :
  ascending key s -> no_nan key s -> is_nan (key x) = false ->
  filter (has_score key v) (binary_insert key s x)
  = filter (has_score key v) (s ++ [x]).
Proof.
  intros Hs Hn Hx. destruct (@bisect_position _ key s x Hs Hn Hx) as [_ Hhi].
  unfold binary_insert. set (n := bisect _ _ _ _ _ _) in *.
  rewrite <- (firstn_skipn n s) at 3.
  rewrite !filter_app. simpl.
  destruct (has_score key v x) eqn:E; [|rewrite app_nil_r; reflexivity].
  rewrite (filter_greater_empty v x E Hhi). rewrite app_nil_r. reflexivity.
Qed.

Lemma binarysort_filter v rest : forall s,
  ascending key s -> no_nan key (s ++ rest) ->
  filter (has_score key v) (binarysort key s rest)
  = filter (has_score key v) (s ++ rest).
Proof.
  unfold binarysort. induction rest as [|x rest IH]; intros s Hs Hn; simpl.
  - rewrite app_nil_r. reflexivity.
  - unfold no_nan in Hn. rewrite Forall_app in Hn. destruct Hn as [Hn1 Hn2].
    inversion Hn2 as [|? ? Hx Hn3]; subst.
    rewrite IH.
    + rewrite !filter_app, binary_insert_filter, filter_app, <- app_assoc by assumption.
      simpl. destruct (has_score key v x); reflexivity.
    + apply binary_insert_sorted; assumption.
    + unfold no_nan. rewrite Forall_app. split; [|assumption].
      apply (@no_nan_perm (s ++ [x])); [symmetry; apply binary_insert_perm|].
      unfold no_nan. rewrite Forall_app. split; [assumption|repeat constructor; assumption].
Qed.

Lemma filter_smaller_empty v x l :
  has_score key v x = true ->
  Forall (fun y => islt key y x = true) l ->
  filter (has_score key v) l = [].
Proof.
  intros Hx. induction 1 as [|y l Hy Hl IH]; simpl; [reflexivity|].
  destruct (has_score key v y) eqn:E; [|assumption].
  unfold has_score, islt in *. simpl in *.
  rewrite (equal_not_less _ _ _ E Hx) in Hy. discriminate.
Qed.

Lemma strictly_descending_filter v l :
  strictly_descending key l -> length (filter (has_score key v) l) <= 1.
Proof.
  induction 1 as [|x l Hs IH Hf]; simpl; [lia|].
  destruct (has_score key v x) eqn:E; [|assumption].
  rewrite (@filter_smaller_empty v x l E); [simpl; lia|assumption].
Qed.

Lemma rev_short (l : list A) : length l <= 1 -> rev l = l.
Proof. destruct l as [|a [|b l]]; simpl; intros H; try reflexivity; lia. Qed.

Lemma count_run_filter v l run rest :
  no_nan key l -> count_run key l = (run, rest) ->
  filter (has_score key v) (run ++ rest) = filter (has_score key v) l.
Proof.
  unfold count_run. destruct l as [|x0 [|x1 l]]; intros Hn H.
  - inversion H; reflexivity.
  - inversion H; reflexivity.
  - destruct (islt key x1 x0).
    + destruct (descending_run key x0 (x1 :: l)) as [run' rest'] eqn:E.
      inversion H; subst.
      pose proof (@descending_run_sorted _ key _ _ _ _ Hn E) as Hs.
      apply descending_run_app in E. rewrite E.
      change (x0 :: run' ++ rest) with ((x0 :: run') ++ rest).
      change (rev run' ++ [x0]) with (rev (x0 :: run')).
      rewrite !filter_app, filter_rev, rev_short; [reflexivity|].
      apply strictly_descending_filter. assumption.
    + destruct (ascending_run key x0 (x1 :: l)) as [run' rest'] eqn:E.
      inversion H; subst. apply ascending_run_app in E. rewrite E. reflexivity.
Qed.

Lemma list_sort_forward_filter v l :
  no_nan key l ->
  filter (has_score key v) (list_sort_forward key l) = filter (has_score key v) l.
Proof.
  intros Hn. unfold list_sort_forward.
  destruct (count_run key l) as [run rest] eqn:E.
  rewrite binarysort_filter.
  - eapply count_run_filter; eassumption.
  - eapply count_run_sorted; eassumption.
  - apply (@no_nan_perm l); [symmetry; eapply count_run_perm; eassumption|assumption].
Qed.

Lemma list_sort_reverse_filter v l :
  no_nan key l ->
  filter (has_score key v) (list_sort_reverse key l) = filter (has_score key v) l.
Proof.
  intros Hn. unfold list_sort_reverse.
  rewrite filter_rev, list_sort_forward_filter, filter_rev, rev_involutive; [reflexivity|].
  apply (@no_nan_perm l); [apply Permutation_rev|assumption].
Qed.

Lemma count_run_cons x0 x1 l :
  count_run key (x0 :: x1 :: l)
  = if islt key x1 x0
    then (rev (x0 :: fst (descending_run key x0 (x1 :: l))),
          snd (descending_run key x0 (x1 :: l)))
    else (x0 :: fst (ascending_run key x0 (x1 :: l)),
          snd (ascending_run key x0 (x1 :: l))).
Proof.
  unfold count_run. destruct (islt key x1 x0).
  - destruct (descending_run key x0 (x1 :: l)). reflexivity.
  - destruct (ascending_run key x0 (x1 :: l)). reflexivity.
Qed.

End SortOrder.

(** *** Sorting a list of images *)

Section SortMap.
Variables A B : Type.
Variable key : A -> float.
Variable f : B -> A.

Lemma ascending_run_map l : forall prev,
  ascending_run key (f prev) (map f l)
  = (map f (fst (ascending_run (fun b => key (f b)) prev l)),
     map f (snd (ascending_run (fun b => key (f b)) prev l))).
Proof.
  induction l as [|x l IH]; intros prev; simpl; [reflexivity|].
  unfold islt. simpl. destruct (SFltb (key (f x)) (key (f prev))); [reflexivity|].
  rewrite IH. destruct (ascending_run _ x l). reflexivity.
Qed.

Lemma descending_run_map l : forall prev,
  descending_run key (f prev) (map f l)
  = (map f (fst (descending_run (fun b => key (f b)) prev l)),
     map f (snd (descending_run (fun b => key (f b)) prev l))).
Proof.
  induction l as [|x l IH]; intros prev; simpl; [reflexivity|].
  unfold islt. simpl. destruct (SFltb (key (f x)) (key (f prev))); [|reflexivity].
  rewrite IH. destruct (descending_run _ x l). reflexivity.
Qed.

Lemma count_run_map l :
  count_run key (map f l)
  = (map f (fst (count_run (fun b => key (f b)) l)),
     map f (snd (count_run (fun b => key (f b)) l))).
Proof.
  destruct l as [|x0 [|x1 l]]; try reflexivity.
  rewrite (count_run_cons (fun b => key (f b))).
  change (map f (x0 :: x1 :: l)) with (f x0 :: f x1 :: map f l).
  rewrite (count_run_cons key).
  change (f x1 :: map f l) with (map f (x1 :: l)).
  rewrite descending_run_map, ascending_run_map.
  unfold islt. simpl f_ltb.
  destruct (SFltb (key (f x1)) (key (f x0))); cbn [fst snd]; [|reflexivity].
  rewrite map_rev. reflexivity.
Qed.

Lemma bisect_map fuel s x : forall l r,
  bisect key fuel (map f s) (f x) l r = bisect (fun b => key (f b)) fuel s x l r.
Proof.
  induction fuel as [|fuel IH]; intros l r; [reflexivity|].
  rewrite !bisect_step, nth_error_map.
  destruct (l <? r); [|reflexivity].
  destruct (nth_error s (l + (r - l) / 2)) as [y|]; simpl; [|reflexivity].
  unfold islt. simpl. destruct (SFltb (key (f x)) (key (f y))); apply IH.
Qed.

Lemma binary_insert_map s x :
  binary_insert key (map f s) (f x) = map f (binary_insert (fun b => key (f b)) s x).
Proof.
  unfold binary_insert. rewrite length_map, bisect_map, map_app, firstn_map.
  simpl. rewrite skipn_map. reflexivity.
Qed.

Lemma binarysort_map rest : forall s,
  binarysort key (map f s) (map f rest) = map f (binarysort (fun b => key (f b)) s rest).
Proof.
  unfold binarysort. induction rest as [|x rest IH]; intros s; simpl; [reflexivity|].
  rewrite binary_insert_map. apply IH.
Qed.

Lemma list_sort_reverse_map l :
  list_sort_reverse key (map f l) = map f (list_sort_reverse (fun b => key (f b)) l).
Proof.
  unfold list_sort_reverse, list_sort_forward.
  rewrite <- map_rev, count_run_map.
  destruct (count_run _ (rev l)) as [run rest]. simpl.
  rewrite binarysort_map, map_rev. reflexivity.
Qed.

End SortMap.

Lemma list_sort_reverse_length (A : Type) (key : A -> float) (l : list A) :
  length (list_sort_reverse key l) = length l.
Proof. apply Permutation_length, list_sort_reverse_perm. Qed.

(** A stable sort keeps elements of equal score in the order of their tags. *)
Lemma list_sort_reverse_stable (A : Type) (key : A -> float) (l : list A) (tags : list nat) :
  no_nan key l -> length tags = length l -> StronglySorted lt tags ->
  exists idx,
    Forall2 (fun x t => In (x, t) (combine l tags)) (list_sort_reverse key l) idx /\
    NoDup idx /\
    forall i j xi xj ti tj,
      i < j ->
      nth_error (list_sort_reverse key l) i = Some xi ->
      nth_error (list_sort_reverse key l) j = Some xj ->
      nth_error idx i = Some ti -> nth_error idx j = Some tj ->
      f_eqb (key xi) (key xj) = true -> ti < tj.
Proof.
  intros Hnan Hlen Htags.
  set (dec := combine l tags).
  set (sdec := list_sort_reverse (fun p : A * nat => key (fst p)) dec).
  assert (Hperm : Permutation sdec dec) by apply list_sort_reverse_perm.
  assert (Hfst : map fst sdec = list_sort_reverse key l).
  { unfold sdec. rewrite <- list_sort_reverse_map. unfold dec.
    rewrite map_fst_combine by assumption. reflexivity. }
  assert (Hdec : no_nan (fun p : A * nat => key (fst p)) dec).
  { apply Forall_forall. intros [x t] Hin. simpl.
    apply in_combine_l in Hin. eapply no_nan_in; eassumption. }
  exists (map snd sdec). rewrite <- Hfst. repeat split.
  - apply Forall2_map_fst_snd. apply Forall_forall. intros [x t] Hin. simpl.
    apply (Permutation_in _ Hperm). assumption.
  - apply (Permutation_NoDup (l := tags)); [|apply strongly_sorted_lt_NoDup; assumption].
    rewrite Hperm. unfold dec. rewrite map_snd_combine by assumption. reflexivity.
  - intros i j xi xj ti tj Hij Hxi Hxj Hti Htj Heq.
    rewrite nth_error_map in Hxi, Hxj, Hti, Htj.
    destruct (nth_error sdec i) as [[xi' ti']|] eqn:Ei; try discriminate.
    destruct (nth_error sdec j) as [[xj' tj']|] eqn:Ej; try discriminate.
    simpl in *. inversion Hxi; inversion Hxj; inversion Hti; inversion Htj; subst.
    destruct (nth_error_two_split _ Hij Ei Ej) as [s1 [s2 [s3 Hs]]].
    pose proof (list_sort_reverse_filter (key xj) Hdec) as Hf.
    fold sdec in Hf. rewrite Hs in Hf.
    assert (Hj : SFeqb (key xj) (key xj) = true).
    { apply SFeqb_refl. apply SFeqb_position in Heq. tauto. }
    rewrite filter_app in Hf. simpl in Hf. rewrite filter_app in Hf. simpl in Hf.
    unfold has_score at 2 4 in Hf. simpl in Hf. rewrite Heq, Hj in Hf.
    pose proof (strongly_sorted_filter (has_score (fun p : A * nat => key (fst p)) (key xj))
                  (combine_tag_sorted l Htags)) as Hsorted.
    fold dec in Hsorted. rewrite <- Hf in Hsorted.
    apply strongly_sorted_middle in Hsorted. exact Hsorted.
Qed.

(** * The loop over the memories *)

Section Loop.
Variable q : list float.

Lemma iteration_skip acc mem :
  has_embedding mem = false -> iteration q acc mem = Ok acc.
Proof.
  unfold has_embedding, iteration.
  destruct (mem_embedding mem) as [[|a emb]|]; intros H; try discriminate; reflexivity.
Qed.

Lemma iteration_acc acc mem :
  iteration q acc mem = (rs <- iteration q [] mem ;; Ok (acc ++ rs)).
Proof.
  unfold iteration. destruct (mem_embedding mem) as [[|a emb]|]; simpl;
    rewrite ?app_nil_r; try reflexivity.
  destruct (cosine_similarity q (a :: emb)); simpl; [|reflexivity].
  destruct (getitem (mem_content mem) "content"); reflexivity.
Qed.

Lemma iteration_scored acc mem :
  has_embedding mem = true ->
  iteration q acc mem = Raise (KeyError "content") \/
  exists r, iteration q [] mem = Ok [r] /\ iteration q acc mem = Ok (acc ++ [r]).
Proof.
  unfold has_embedding. rewrite (iteration_acc acc). unfold iteration.
  destruct (mem_embedding mem) as [[|a emb]|]; intros H; try discriminate.
  destruct (cosine_similarity_total q (a :: emb)) as [score ->]. simpl.
  destruct (mem_content mem) as [c|]; simpl; [right|left; reflexivity].
  eexists. split; reflexivity.
Qed.

Lemma for_each_app l1 : forall l2 acc,
  for_each q (l1 ++ l2) acc = (acc' <- for_each q l1 acc ;; for_each q l2 acc').
Proof.
  induction l1 as [|mem l1 IH]; intros l2 acc; simpl; [reflexivity|].
  destruct (iteration q acc mem); simpl; [apply IH|reflexivity].
Qed.

Lemma strongly_sorted_shift pos :
  StronglySorted lt pos -> StronglySorted lt (map S pos).
Proof.
  induction 1 as [|p pos Hs IH Hf]; simpl; constructor; [assumption|].
  rewrite Forall_forall in *. intros x Hx. apply in_map_iff in Hx.
  destruct Hx as [y [<- Hy]]. apply -> Nat.succ_lt_mono. apply Hf, Hy.
Qed.

(** What the loop returns: the results of the memories that have an
    embedding, in order, each with the position of its memory. *)
Lemma for_each_positions mems : forall acc res,
  for_each q mems acc = Ok res ->
  exists rs pos,
    res = acc ++ rs /\ length pos = length rs /\ StronglySorted lt pos /\
    length rs = length (filter has_embedding mems) /\
    Forall2 (fun r p => exists mem, nth_error mems p = Some mem /\ scored_as q mem r) rs pos.
Proof.
  induction mems as [|mem mems IH]; intros acc res H; simpl in H.
  - inversion H; subst. exists [], []. rewrite app_nil_r. repeat split; constructor.
  - destruct (iteration q acc mem) as [acc'|e] eqn:E; simpl in H; [|discriminate].
    destruct (IH _ _ H) as [rs [pos [-> [Hlen [Hs [Hn Hf]]]]]].
    assert (Hshift : Forall2 (fun r p => exists mem0, nth_error (mem :: mems) p = Some mem0
                                          /\ scored_as q mem0 r) rs (map S pos)).
    { clear -Hf. induction Hf; simpl; constructor; auto. }
    simpl. destruct (has_embedding mem) eqn:Hm.
    + destruct (iteration_scored acc mem Hm) as [Hr|[r [Hr Hacc]]]; [congruence|].
      rewrite Hacc in E. inversion E; subst.
      exists (r :: rs), (0 :: map S pos). rewrite <- app_assoc. simpl.
      repeat split; try (simpl; rewrite ?length_map; lia).
      * constructor; [apply strongly_sorted_shift; assumption|].
        apply Forall_forall. intros x Hx. apply in_map_iff in Hx.
        destruct Hx as [y [<- _]]. lia.
      * constructor; [|assumption]. exists mem. split; [reflexivity|assumption].
    + rewrite (iteration_skip acc mem Hm) in E. inversion E; subst.
      exists rs, (map S pos). repeat split; try (rewrite ?length_map; assumption).
      apply strongly_sorted_shift; assumption.
Qed.

Lemma for_each_ok mems : forall acc,
  (forall mem, In mem mems -> has_embedding mem = true -> mem_content mem <> None) ->
  exists res, for_each q mems acc = Ok res.
Proof.
  induction mems as [|mem mems IH]; intros acc Hc; simpl; [eexists; reflexivity|].
  destruct (has_embedding mem) eqn:Hm.
  - destruct (iteration_scored acc mem Hm) as [Hr|[r [_ ->]]].
    + exfalso. apply (Hc mem (or_introl eq_refl) Hm).
      revert Hr. rewrite iteration_acc. unfold iteration, has_embedding in *.
      destruct (mem_embedding mem) as [[|a emb]|]; try discriminate.
      destruct (cosine_similarity_total q (a :: emb)) as [score ->]. simpl.
      destruct (mem_content mem); [discriminate|reflexivity].
    + simpl. apply IH. intros m Hin. apply Hc. right. assumption.
  - rewrite iteration_skip by assumption. simpl. apply IH.
    intros m Hin. apply Hc. right. assumption.
Qed.

End Loop.

(** * The exact reading *)

Section ExactReals.
Local Open Scope R_scope.
Local Existing Instance exact_real.

Lemma fold_left_Rplus l : forall acc,
  fold_left Rplus l acc = acc + fold_right Rplus 0 l.
Proof.
  induction l as [|x l IH]; intros acc; simpl; [lra|]. rewrite IH. lra.
Qed.

Lemma py_sum_exact (l : list R) : py_sum l = fold_right Rplus 0 l.
Proof. unfold py_sum. simpl f_add. simpl f_zero. rewrite fold_left_Rplus. lra. Qed.

Lemma sum_squares_exact_cons a (v : list R) :
  sum_squares (a :: v) = a * a + sum_squares v.
Proof. unfold sum_squares. rewrite !py_sum_exact. reflexivity. Qed.

Lemma sum_squares_exact_nil : sum_squares (@nil R) = 0.
Proof. reflexivity. Qed.

Lemma dot_product_exact_cons a b (v1 v2 : list R) :
  dot_product (a :: v1) (b :: v2) = a * b + dot_product v1 v2.
Proof. unfold dot_product. rewrite !py_sum_exact. reflexivity. Qed.

Lemma dot_product_exact_nil_l (v : list R) : dot_product [] v = 0.
Proof. reflexivity. Qed.

Lemma dot_product_exact_nil_r (v : list R) : dot_product v [] = 0.
Proof. destruct v; reflexivity. Qed.

Lemma sum_squares_exact_nonneg (v : list R) : 0 <= sum_squares v.
Proof.
  induction v as [|a v IH]; [rewrite sum_squares_exact_nil; lra|].
  rewrite sum_squares_exact_cons. nra.
Qed.

(** The quadratic form behind the Cauchy-Schwarz inequality; the elements
    beyond the shorter vector only add squares. *)
Lemma quadratic_form_nonneg (v1 : list R) : forall v2 s t,
  0 <= s * s * sum_squares v1 - 2 * s * t * dot_product v1 v2
       + t * t * sum_squares v2.
Proof.
  induction v1 as [|a v1 IH]; intros v2 s t.
  - rewrite dot_product_exact_nil_l, sum_squares_exact_nil.
    pose proof (sum_squares_exact_nonneg v2). nra.
  - destruct v2 as [|b v2].
    + rewrite dot_product_exact_nil_r, sum_squares_exact_nil.
      pose proof (sum_squares_exact_nonneg (a :: v1)). nra.
    + rewrite dot_product_exact_cons, !sum_squares_exact_cons.
      specialize (IH v2 s t).
      pose proof (Rle_0_sqr (s * a - t * b)) as Hsq. unfold Rsqr in Hsq. lra.
Qed.

Lemma cauchy_schwarz (v1 v2 : list R) :
  0 < sum_squares v1 ->
  dot_product v1 v2 * dot_product v1 v2 <= sum_squares v1 * sum_squares v2.
Proof.
  intros HA.
  pose proof (quadratic_form_nonneg v1 v2 (dot_product v1 v2) (sum_squares v1)) as H.
  nra.
Qed.

Lemma Reqb_false x y : Reqb x y = false <-> x <> y.
Proof. unfold Reqb. destruct (Req_dec_T x y); split; intros; congruence. Qed.

Lemma Rltb_false x y : Rltb x y = false <-> y <= x.
Proof. unfold Rltb. destruct (Rlt_dec x y); split; intros; try lra; congruence. Qed.

Lemma magnitude_exact (v : list R) : magnitude v = Ok (sqrt (sum_squares v)).
Proof.
  unfold magnitude, math_sqrt. simpl f_ltb. simpl f_zero.
  assert (H : Rltb (sum_squares v) 0 = false)
    by (apply Rltb_false, sum_squares_exact_nonneg).
  rewrite H. reflexivity.
Qed.

End ExactReals.


(** * Ranking and output *)

Lemma strongly_sorted_firstn (A : Type) (R : A -> A -> Prop) n : forall l,
  StronglySorted R l -> StronglySorted R (firstn n l).
Proof.
  induction n as [|n IH]; intros l H; simpl; [constructor|].
  destruct H as [|x l Hs Hf]; constructor; [apply IH; assumption|].
  rewrite Forall_forall in *. intros y Hy. apply Hf. apply in_firstn with n. assumption.
Qed.

Lemma rank_results q mems k out :
  rank q mems k = Ok out ->
  exists results, for_each q mems [] = Ok results /\
                  out = slice_to k (list_sort_reverse res_score results).
Proof.
  unfold rank. destruct (for_each q mems []) as [results|e]; simpl; intros H;
    inversion H; subst. exists results. split; reflexivity.
Qed.

Lemma zip_firstn_min (A : Type) (v1 : list A) : forall v2 : list A,
  combine (firstn (Nat.min (length v1) (length v2)) v1)
          (firstn (Nat.min (length v1) (length v2)) v2)
  = combine v1 v2.
Proof.
  induction v1 as [|a v1 IH]; intros [|b v2]; simpl; try reflexivity.
  f_equal. apply IH.
Qed.

(** Case analysis on a nest of alternatives and results. *)
Ltac break_failure :=
  repeat match goal with
  | H : _ \/ _ |- _ => destruct H
  | H : exists _, _ |- _ => destruct H
  | H : _ /\ _ |- _ => destruct H
  | H : Ok _ = Ok _ |- _ => inversion H; subst; clear H
  | H : Ok _ = Raise _ |- _ => discriminate H
  | H : Raise _ = Ok _ |- _ => discriminate H
  end.

Section MainFacts.
Variable json_loads : string -> result (list float).
Variable int_of_str : string -> result Z.
Variable open_json_load : string -> result (list MemoryRecord).


(** The steps of the [try] block that can raise. *)
Lemma main_try_failures argv e :
  fst (main_try json_loads int_of_str open_json_load argv []) = Raise e <->
  (a <- argv_get argv 1 ;; json_loads a) = Raise e \/
  exists query_vector,
    (a <- argv_get argv 1 ;; json_loads a) = Ok query_vector /\
    (argv_get argv 2 = Raise e \/
     exists memory_file,
       argv_get argv 2 = Ok memory_file /\
       ((a <- argv_get argv 3 ;; int_of_str a) = Raise e \/
        exists top_k,
          (a <- argv_get argv 3 ;; int_of_str a) = Ok top_k /\
          (open_json_load memory_file = Raise e \/
           exists memories,
             open_json_load memory_file = Ok memories /\
             rank query_vector memories top_k = Raise e))).
Proof.
  unfold main_try, io_bind, lift, print.
  destruct (a <- argv_get argv 1 ;; json_loads a) as [query|e1]; simpl;
    [destruct (argv_get argv 2) as [file|e2]; simpl;
     [destruct (a <- argv_get argv 3 ;; int_of_str a) as [k|e3]; simpl;
      [destruct (open_json_load file) as [mems|e4] eqn:E4; simpl;
       [destruct (rank query mems k) as [results|e5] eqn:E5; simpl|]|]|]|];
    (split;
     [intros H; try discriminate H; inversion H; subst; eauto 20
     |intros H; break_failure; congruence]).
Qed.

End MainFacts.

(** * Vectors with integer components *)

(** ** The exceptions of the arithmetic *)

Lemma float_of_int_raises n e : float_of_int n = Raise e -> e = too_large.
Proof.
  unfold float_of_int. destruct (of_Z n); intros H; inversion H; reflexivity.
Qed.

Lemma as_float_raises x e : Py.as_float x = Raise e -> e = too_large.
Proof. destruct x; simpl; [apply float_of_int_raises|discriminate]. Qed.

Ltac raise_too_large :=
  repeat match goal with
  | H : Raise _ = Raise _ |- _ => inversion H; subst; clear H
  | H : Ok _ = Raise _ |- _ => discriminate H
  | H : Py.as_float _ = Raise _ |- _ => apply as_float_raises in H; subst
  | H : float_of_int _ = Raise _ |- _ => apply float_of_int_raises in H; subst
  end; try reflexivity.

Lemma mul_raises a b e : Py.mul a b = Raise e -> e = too_large.
Proof.
  destruct a as [m|x], b as [n|y]; simpl; try discriminate;
    repeat match goal with
    | |- context [float_of_int ?n] => destruct (float_of_int n) eqn:?; simpl
    end; intros H; raise_too_large.
Qed.

Lemma add_raises a b e : Py.add a b = Raise e -> e = too_large.
Proof.
  destruct a as [m|x], b as [n|y]; simpl; try discriminate;
    repeat match goal with
    | |- context [float_of_int ?n] => destruct (float_of_int n) eqn:?; simpl
    end; intros H; raise_too_large.
Qed.

Lemma sum_from_raises (A : Type) (term : A -> result number) l :
  (forall x e, term x = Raise e -> e = too_large) ->
  forall total e, Py.sum_from term total l = Raise e -> e = too_large.
Proof.
  intros Ht. induction l as [|x l IH]; intros total e; simpl; [discriminate|].
  destruct (term x) as [t|e'] eqn:Et; simpl.
  - destruct (Py.add total t) as [s|e'] eqn:Ea; simpl; [apply IH|].
    intros H. inversion H; subst. eapply add_raises; eassumption.
  - intros H. inversion H; subst. eapply Ht; eassumption.
Qed.

Lemma dot_product_raises v1 v2 e : Py.dot_product v1 v2 = Raise e -> e = too_large.
Proof.
  apply sum_from_raises. intros [a b] e'. apply mul_raises.
Qed.

(** ** Sums of squares are not negative *)

Lemma float_of_int_nonnegative n x :
  (0 <= n)%Z -> float_of_int n = Ok x -> nonnegative x.
Proof.
  unfold float_of_int, of_Z, binary_normalize. intros Hn.
  destruct n as [|p|p]; [| |lia].
  - intros H. inversion H. exact I.
  - pose proof (binary_round_rounded false p 0) as Hr.
    destruct (binary_round prec emax false p 0); intros H; inversion H; subst;
      apply rounded_nonnegative; assumption.
Qed.

Lemma as_float_nonnegative x y :
  nonnegative_number x -> Py.as_float x = Ok y -> nonnegative y.
Proof.
  destruct x as [n|x]; simpl; [apply float_of_int_nonnegative|].
  intros Hx H. inversion H; subst. assumption.
Qed.

Lemma square_nonnegative_number a s :
  Py.mul a a = Ok s -> nonnegative_number s.
Proof.
  destruct a as [n|x]; simpl; intros H; inversion H; subst; simpl.
  - apply Z.square_nonneg.
  - apply square_nonnegative.
Qed.

Lemma add_nonnegative_number a b s :
  nonnegative_number a -> nonnegative_number b ->
  Py.add a b = Ok s -> nonnegative_number s.
Proof.
  intros Ha Hb. unfold Py.add.
  destruct a as [m|x], b as [n|y].
  - intros H. inversion H. simpl in *. lia.
  - destruct (Py.as_float (NInt m)) as [x|e] eqn:E; simpl; [|discriminate].
    intros H. inversion H; subst. simpl.
    apply SFadd_nonnegative; [exact (@as_float_nonnegative _ _ Ha E)|assumption].
  - destruct (Py.as_float (NInt n)) as [y|e] eqn:E; simpl; [|discriminate].
    intros H. inversion H; subst. simpl.
    apply SFadd_nonnegative; [assumption|exact (@as_float_nonnegative _ _ Hb E)].
  - simpl. intros H. inversion H; subst. simpl. apply SFadd_nonnegative; assumption.
Qed.

Lemma sum_squares_from_nonnegative v : forall total s,
  nonnegative_number total ->
  Py.sum_from (fun a => Py.mul a a) total v = Ok s -> nonnegative_number s.
Proof.
  induction v as [|a v IH]; intros total s Ht; simpl.
  - intros H. inversion H; subst. assumption.
  - destruct (Py.mul a a) as [t|e] eqn:Em; simpl; [|discriminate].
    destruct (Py.add total t) as [total'|e] eqn:Ea; simpl; [|discriminate].
    intros H. apply (IH total' s); [|exact H].
    eapply add_nonnegative_number; [exact Ht| |exact Ea].
    eapply square_nonnegative_number. exact Em.
Qed.

(** The magnitude is a square root of a sum that is not negative, or the
    conversion of an int failed on the way: [math.sqrt] never raises its
    domain error. *)
Lemma magnitude_outcomes v :
  (exists s y, Py.sum_squares v = Ok s /\ Py.as_float s = Ok y /\ nonnegative y /\
               Py.magnitude v = Ok (SFsqrt prec emax y)) \/
  Py.magnitude v = Raise too_large.
Proof.
  unfold Py.magnitude.
  destruct (Py.sum_squares v) as [s|e] eqn:Es; simpl.
  - assert (Hs : nonnegative_number s).
    { eapply sum_squares_from_nonnegative; [|exact Es]. simpl. lia. }
    unfold Py.math_sqrt. destruct (Py.as_float s) as [y|e] eqn:Ey; simpl.
    + left. exists s, y. pose proof (as_float_nonnegative _ Hs Ey) as Hy.
      repeat split; try assumption.
      unfold math_sqrt. simpl f_ltb. simpl f_zero.
      rewrite (nonnegative_not_lt_zero _ Hy). reflexivity.
    + right. apply as_float_raises in Ey. subst. reflexivity.
  - right. apply sum_from_raises in Es; [subst; reflexivity|].
    intros x e'. apply mul_raises.
Qed.

Lemma magnitude_in_range v m : Py.magnitude v = Ok m -> in_sqrt_range m.
Proof.
  destruct (magnitude_outcomes v) as [[s [y [_ [_ [Hy ->]]]]]| ->]; [|discriminate].
  intros H. inversion H; subst. apply SFsqrt_in_range. assumption.
Qed.

Lemma magnitude_raises v e : Py.magnitude v = Raise e -> e = too_large.
Proof.
  destruct (magnitude_outcomes v) as [[s [y [_ [_ [_ ->]]]]]| ->]; [discriminate|].
  intros H. inversion H. reflexivity.
Qed.

(** The division of line 12 never divides by zero. *)
Lemma truediv_magnitudes dot m1 m2 :
  in_sqrt_range m1 -> in_sqrt_range m2 ->
  negb (truthy m1) || negb (truthy m2) = false ->
  Py.truediv dot (SFmul prec emax m1 m2)
  = (d <- Py.as_float dot ;; Ok (SFdiv prec emax d (SFmul prec emax m1 m2))).
Proof.
  intros H1 H2 E. apply orb_false_elim in E. destruct E as [E1 E2].
  apply negb_false_iff in E1, E2. unfold truthy in E1, E2.
  apply negb_true_iff in E1, E2. simpl f_eqb in E1, E2. simpl f_zero in E1, E2.
  unfold Py.truediv, truediv. simpl f_eqb. simpl f_zero.
  rewrite product_of_magnitudes_nonzero by assumption. reflexivity.
Qed.

(** [cosine_similarity] on numbers returns or raises the conversion error. *)
Lemma cosine_similarity_raises v1 v2 e :
  Py.cosine_similarity v1 v2 = Raise e -> e = too_large.
Proof.
  unfold Py.cosine_similarity.
  destruct (Py.dot_product v1 v2) as [dot|e0] eqn:Ed; simpl bind.
  2:{ intros H. inversion H; subst. eapply dot_product_raises; eassumption. }
  destruct (Py.magnitude v1) as [m1|e1] eqn:E1; simpl bind.
  2:{ intros H. inversion H; subst. eapply magnitude_raises; eassumption. }
  destruct (Py.magnitude v2) as [m2|e2] eqn:E2; simpl bind.
  2:{ intros H. inversion H; subst. eapply magnitude_raises; eassumption. }
  destruct (negb (truthy m1) || negb (truthy m2)) eqn:E; [discriminate|].
  rewrite truediv_magnitudes by eauto using magnitude_in_range.
  destruct (Py.as_float dot) as [d|e'] eqn:Ef; simpl bind; [discriminate|].
  intros H. inversion H; subst. eapply as_float_raises; eassumption.
Qed.

(** ** Vectors of moderate size *)

Section Conversion.
Local Open Scope Z_scope.

Lemma shr_fexp_exponent m e l :
  snd (shr_fexp prec emax m e l) = Z.max e (fexp prec emax (Zdigits2 m + e)).
Proof.
  unfold shr_fexp, shr.
  destruct (fexp prec emax (Zdigits2 m + e) - e) eqn:E; simpl; lia.
Qed.

Lemma Zdigits2_succ a b : 0 < a -> a <= b <= a + 1 -> Zdigits2 b <= Zdigits2 a + 1.
Proof.
  intros Ha Hb. rewrite !Zdigits2_log2 by lia.
  assert (Z.log2 b <= Z.log2 (2 * a)) by (apply Z.log2_le_mono; lia).
  rewrite Z.log2_double in * by lia. lia.
Qed.

(** No overflow: a mantissa of magnitude at most [emax - 1] rounds to a
    finite number. *)
Lemma binary_round_aux_finite s m e l :
  0 < m -> emin64 < Zdigits2 m + e -> Zdigits2 m + e <= emax - 1 ->
  e <= emax - prec ->
  exists m' e', binary_round_aux prec emax s m e l = S754_finite s m' e'.
Proof.
  intros Hm Hmag Hmax He. unfold binary_round_aux.
  destruct (shr_fexp_magnitude e l Hm Hmag) as [H1 H2].
  pose proof (shr_fexp_exponent m e l) as He1.
  destruct (shr_fexp prec emax m e l) as [mrs1 e1]. simpl in H1, H2, He1.
  set (m2 := round_nearest_even (shr_m mrs1) (loc_of_shr_record mrs1)).
  pose proof (round_nearest_even_bounds (shr_m mrs1) (loc_of_shr_record mrs1)) as Hb.
  fold m2 in Hb.
  assert (Hm2 : 0 < m2) by lia.
  pose proof (Zdigits2_succ H1 Hb) as Hd.
  assert (Hd' : Zdigits2 (shr_m mrs1) <= Zdigits2 m2) by (apply Zdigits2_le; lia).
  assert (Hmag2 : emin64 < Zdigits2 m2 + e1) by lia.
  destruct (shr_fexp_magnitude e1 loc_Exact Hm2 Hmag2) as [H3 _].
  pose proof (shr_fexp_exponent m2 e1 loc_Exact) as He2.
  destruct (shr_fexp prec emax m2 e1 loc_Exact) as [mrs2 e2]. simpl in H3, He2.
  destruct (shr_m mrs2) as [|m3|m3] eqn:E3; try lia.
  assert (Hle : e2 <= emax - prec).
  { unfold fexp, emin, emax, prec in *. lia. }
  apply Z.leb_le in Hle. rewrite Hle. eauto.
Qed.

Lemma iter_xO_digits p : forall d,
  Zpos (digits2_pos (Pos.iter xO p d)) = Zpos (digits2_pos p) + Zpos d.
Proof.
  intros d. induction d as [|d IH] using Pos.peano_ind.
  - simpl. lia.
  - rewrite Pos.iter_succ. simpl digits2_pos. lia.
Qed.

Lemma shl_align_magnitude mx ex ex' :
  Zdigits2 (Zpos (fst (shl_align mx ex ex'))) + snd (shl_align mx ex ex')
  = Zdigits2 (Zpos mx) + ex /\
  snd (shl_align mx ex ex') <= ex.
Proof.
  unfold shl_align. destruct (ex' - ex) as [|d|d] eqn:E;
    cbn [fst snd Zdigits2]; try lia.
  rewrite iter_xO_digits. lia.
Qed.

Lemma binary_round_finite s p :
  Zpos p < 2 ^ (emax - 1) ->
  exists m' e', binary_round prec emax s p 0 = S754_finite s m' e'.
Proof.
  intros Hp. unfold binary_round.
  pose proof (shl_align_magnitude p 0 (fexp prec emax (Zpos (digits2_pos p) + 0)))
    as [Hd He].
  destruct (shl_align _ _ _) as [mz ez]. cbn [fst snd] in Hd, He.
  assert (Hlog : Zdigits2 (Zpos p) <= emax - 1).
  { cbn [Zdigits2]. rewrite digits2_log2.
    assert (Z.log2 (Zpos p) < emax - 1) by (apply Z.log2_lt_pow2; [lia|exact Hp]).
    lia. }
  assert (Hpos : 0 < Zdigits2 (Zpos p)) by (cbn [Zdigits2]; lia).
  apply binary_round_aux_finite; unfold emin64, emin, emax, prec in *; lia.
Qed.

Lemma float_of_int_small n :
  Z.abs n < 2 ^ (emax - 1) -> exists x, float_of_int n = Ok x.
Proof.
  intros Hn. unfold float_of_int, of_Z, binary_normalize.
  destruct n as [|p|p].
  - eauto.
  - destruct (@binary_round_finite false p) as [m' [e' ->]]; [exact Hn|eauto].
  - destruct (@binary_round_finite true p) as [m' [e' ->]]; [exact Hn|eauto].
Qed.

End Conversion.

Section Moderate.
Local Open Scope Z_scope.

Lemma as_float_within bound x :
  within bound x -> bound < 2 ^ (emax - 1) -> exists y, Py.as_float x = Ok y.
Proof.
  destruct x as [n|x]; cbn [within Py.as_float]; [|eauto].
  intros Hn Hb. apply float_of_int_small. eapply Z.le_lt_trans; eassumption.
Qed.

Lemma within_le b1 b2 x : within b1 x -> b1 <= b2 -> within b2 x.
Proof. destruct x; simpl; [lia|trivial]. Qed.

Lemma mul_moderate a b :
  Py.moderate a = true -> Py.moderate b = true ->
  exists t, Py.mul a b = Ok t /\ within (2 ^ 1000) t.
Proof.
  unfold Py.moderate, Py.mul.
  pose proof float_of_int_small as Hf.
  assert (Hc : 2 ^ 500 < 2 ^ (emax - 1)) by reflexivity.
  assert (Hsq : 2 ^ 500 * 2 ^ 500 = 2 ^ 1000) by reflexivity.
  assert (Hp : 0 < 2 ^ 500) by reflexivity.
  set (c := 2 ^ 500) in *. set (t := 2 ^ 1000) in *. set (h := 2 ^ (emax - 1)) in *.
  clearbody c t h.
  destruct a as [m|x], b as [n|y]; intros Ha Hb; cbn [Py.as_float].
  - apply Z.leb_le in Ha, Hb. eexists. split; [reflexivity|]. cbn [within].
    rewrite Z.abs_mul, <- Hsq. apply Z.mul_le_mono_nonneg; lia.
  - apply Z.leb_le in Ha.
    destruct (Hf m) as [x ->]; [lia|]. eexists. split; [reflexivity|exact I].
  - apply Z.leb_le in Hb.
    destruct (Hf n) as [y ->]; [lia|]. eexists. split; [reflexivity|exact I].
  - eexists. split; [reflexivity|exact I].
Qed.

Lemma add_within b1 b2 x y :
  within b1 x -> within b2 y -> b1 + b2 < 2 ^ (emax - 1) -> 0 <= b1 -> 0 <= b2 ->
  exists s, Py.add x y = Ok s /\ within (b1 + b2) s.
Proof.
  pose proof float_of_int_small as Hf.
  set (h := 2 ^ (emax - 1)) in *. clearbody h.
  intros Hx Hy Hb H1 H2. unfold Py.add.
  destruct x as [m|x], y as [n|y]; cbn [within Py.as_float] in *.
  - eexists. split; [reflexivity|]. cbn [within]. lia.
  - destruct (Hf m) as [x ->]; [lia|]. eexists. split; [reflexivity|exact I].
  - destruct (Hf n) as [y ->]; [lia|]. eexists. split; [reflexivity|exact I].
  - eexists. split; [reflexivity|exact I].
Qed.

Lemma sum_from_within (A : Type) (term : A -> result number) t l :
  0 <= t ->
  (forall x, In x l -> exists y, term x = Ok y /\ within t y) ->
  forall total b,
    within b total -> 0 <= b ->
    b + Z.of_nat (length l) * t < 2 ^ (emax - 1) ->
    exists s, Py.sum_from term total l = Ok s /\
              within (b + Z.of_nat (length l) * t) s.
Proof.
  pose proof add_within as Hadd.
  set (h := 2 ^ (emax - 1)) in *. clearbody h. intros Ht.
  induction l as [|x l IH]; intros Hl total b Hb Hb0 Hlen.
  - exists total. split; [reflexivity|].
    eapply within_le; [exact Hb|]. cbn [length]. lia.
  - cbn [Py.sum_from]. destruct (Hl x (or_introl eq_refl)) as [y [-> Hy]]. simpl bind.
    rewrite length_cons, Nat2Z.inj_succ in *.
    assert (Hl0 : 0 <= Z.of_nat (length l) * t) by (apply Z.mul_nonneg_nonneg; lia).
    destruct (Hadd b t total y Hb Hy) as [s [-> Hs]]; try lia.
    simpl bind.
    destruct (IH (fun z Hz => Hl z (or_intror Hz)) s (b + t) Hs) as [r [Hr Hw]];
      try lia.
    exists r. split; [exact Hr|]. eapply within_le; [exact Hw|]. lia.
Qed.

Lemma sum_moderate (A : Type) (term : A -> result number) l :
  (forall x, In x l -> exists y, term x = Ok y /\ within (2 ^ 1000) y) ->
  Z.of_nat (length l) <= 2 ^ 20 ->
  exists s, Py.sum term l = Ok s /\ within (2 ^ 1020) s.
Proof.
  pose proof (@sum_from_within A term) as Hsum.
  assert (Hc : 2 ^ 1020 < 2 ^ (emax - 1)) by reflexivity.
  assert (Hm : 2 ^ 20 * 2 ^ 1000 = 2 ^ 1020) by reflexivity.
  assert (Ht : 0 <= 2 ^ 1000) by (intros H; discriminate H).
  set (h := 2 ^ (emax - 1)) in *. set (t := 2 ^ 1000) in *. set (u := 2 ^ 1020) in *.
  set (k := 2 ^ 20) in *. clearbody h t u k.
  intros Hl Hlen.
  assert (Hb : Z.of_nat (length l) * t <= u).
  { rewrite <- Hm. apply Z.mul_le_mono_nonneg_r; assumption. }
  destruct (Hsum t l Ht Hl (NInt 0) 0) as [s [Hs Hw]];
    try (cbn [within]; lia).
  exists s. split; [exact Hs|]. eapply within_le; [exact Hw|]. lia.
Qed.

Lemma forallb_in (A : Type) (p : A -> bool) l x :
  forallb p l = true -> In x l -> p x = true.
Proof. intros H. rewrite forallb_forall in H. apply H. Qed.

Lemma sum_squares_moderate v :
  Py.moderate_vector v -> exists s, Py.sum_squares v = Ok s /\ within (2 ^ 1020) s.
Proof.
  intros [Hm Hlen]. apply sum_moderate; [|assumption].
  intros x Hx. apply mul_moderate; eapply forallb_in; [exact Hm|exact Hx|exact Hm|exact Hx].
Qed.

Lemma dot_product_moderate v1 v2 :
  Py.moderate_vector v1 -> Py.moderate_vector v2 ->
  exists s, Py.dot_product v1 v2 = Ok s /\ within (2 ^ 1020) s.
Proof.
  intros [Hm1 Hlen1] [Hm2 Hlen2]. apply sum_moderate.
  - intros [a b] Hx. unfold zip in Hx. cbn [fst snd].
    apply mul_moderate.
    + eapply forallb_in; [exact Hm1|eapply in_combine_l; exact Hx].
    + eapply forallb_in; [exact Hm2|eapply in_combine_r; exact Hx].
  - unfold zip. rewrite length_combine. lia.
Qed.

Lemma magnitude_moderate v :
  Py.moderate_vector v -> exists m, Py.magnitude v = Ok m.
Proof.
  intros Hv. destruct (sum_squares_moderate Hv) as [s [Hs Hw]].
  destruct (@as_float_within _ s Hw) as [y Hy]; [reflexivity|].
  destruct (magnitude_outcomes v) as [[s' [y' [_ [_ [_ ->]]]]]|Hr]; [eauto|].
  exfalso. revert Hr. unfold Py.magnitude. rewrite Hs. simpl bind.
  unfold Py.math_sqrt. rewrite Hy. simpl bind.
  assert (Hn : nonnegative y).
  { eapply as_float_nonnegative; [|exact Hy].
    eapply sum_squares_from_nonnegative; [|exact Hs]. simpl. lia. }
  unfold math_sqrt. simpl f_ltb. simpl f_zero.
  rewrite (nonnegative_not_lt_zero _ Hn). discriminate.
Qed.

(** On vectors of moderate size nothing is too large. *)
Lemma cosine_similarity_moderate v1 v2 :
  Py.moderate_vector v1 -> Py.moderate_vector v2 ->
  exists r, Py.cosine_similarity v1 v2 = Ok r.
Proof.
  intros H1 H2. unfold Py.cosine_similarity.
  destruct (dot_product_moderate H1 H2) as [dot [-> Hw]]. simpl bind.
  destruct (magnitude_moderate H1) as [m1 E1]. rewrite E1. simpl bind.
  destruct (magnitude_moderate H2) as [m2 E2]. rewrite E2. simpl bind.
  destruct (negb (truthy m1) || negb (truthy m2)) eqn:E; [eauto|].
  rewrite truediv_magnitudes by eauto using magnitude_in_range.
  destruct (@as_float_within _ dot Hw) as [d ->]; [reflexivity|]. simpl bind. eauto.
Qed.

End Moderate.

(** ** Vectors of floats *)

Lemma sum_from_floats (A : Type) (term : A -> result number) (g : A -> float) l :
  (forall x, In x l -> term x = Ok (NFloat (g x))) ->
  forall total a,
    Py.as_float total = Ok a -> (total = NInt 0 \/ is_float total = true) ->
    exists s, Py.sum_from term total l = Ok s /\
              (s = NInt 0 \/ is_float s = true) /\
              Py.as_float s = Ok (fold_left (SFadd prec emax) (map g l) a).
Proof.
  induction l as [|x l IH]; intros Ht total a Ha Hshape; simpl.
  - exists total. auto.
  - rewrite (Ht x (or_introl eq_refl)). simpl.
    assert (Hadd : Py.add total (NFloat (g x)) = Ok (NFloat (SFadd prec emax a (g x)))).
    { destruct Hshape as [->|Hf].
      - simpl in Ha. inversion Ha; subst. reflexivity.
      - destruct total as [n|y]; [discriminate|]. simpl in Ha. inversion Ha; subst.
        reflexivity. }
    rewrite Hadd. simpl. apply IH; auto. intros y Hy. apply Ht. right. assumption.
Qed.

Lemma sum_floats (A : Type) (term : A -> result number) (g : A -> float) l :
  (forall x, In x l -> term x = Ok (NFloat (g x))) ->
  exists s, Py.sum term l = Ok s /\ Py.as_float s = Ok (py_sum (map g l)).
Proof.
  intros Ht.
  destruct (@sum_from_floats _ term g l Ht (NInt 0) (S754_zero false) eq_refl
              (or_introl eq_refl)) as [s [Hs [_ Hf]]].
  exists s. split; assumption.
Qed.

Lemma sum_squares_floats (v : list float) :
  exists s, Py.sum_squares (numbers v) = Ok s /\ Py.as_float s = Ok (sum_squares v).
Proof.
  unfold Py.sum_squares, sum_squares, numbers.
  destruct (@sum_floats _ (fun a => Py.mul a a)
              (fun a => match a with NFloat x => SFmul prec emax x x | NInt _ => S754_nan end)
              (map NFloat v)) as [s [Hs Hf]].
  - intros x Hx. apply in_map_iff in Hx. destruct Hx as [y [<- _]]. reflexivity.
  - exists s. split; [assumption|]. rewrite Hf, map_map. reflexivity.
Qed.

Lemma zip_numbers (v1 : list float) : forall v2,
  zip (numbers v1) (numbers v2)
  = map (fun ab => (NFloat (fst ab), NFloat (snd ab))) (zip v1 v2).
Proof.
  induction v1 as [|a v1 IH]; intros [|b v2]; simpl; try reflexivity.
  f_equal. apply IH.
Qed.

Lemma dot_product_floats (v1 v2 : list float) :
  exists s, Py.dot_product (numbers v1) (numbers v2) = Ok s /\
            Py.as_float s = Ok (dot_product v1 v2).
Proof.
  unfold Py.dot_product, dot_product. rewrite zip_numbers.
  destruct (@sum_floats _ (fun ab => Py.mul (fst ab) (snd ab))
              (fun ab => match fst ab, snd ab with
                         | NFloat x, NFloat y => SFmul prec emax x y
                         | _, _ => S754_nan
                         end)
              (map (fun ab => (NFloat (fst ab), NFloat (snd ab))) (zip v1 v2)))
    as [s [Hs Hf]].
  - intros x Hx. apply in_map_iff in Hx. destruct Hx as [y [<- _]]. reflexivity.
  - exists s. split; [assumption|]. rewrite Hf, map_map. reflexivity.
Qed.

Lemma magnitude_floats (v : list float) : Py.magnitude (numbers v) = magnitude v.
Proof.
  unfold Py.magnitude, magnitude.
  destruct (sum_squares_floats v) as [s [-> Hf]]. simpl.
  unfold Py.math_sqrt. rewrite Hf. reflexivity.
Qed.

(** On vectors of floats the two readings of [cosine_similarity] agree. *)
Lemma cosine_similarity_floats (v1 v2 : list float) :
  Py.cosine_similarity (numbers v1) (numbers v2) = cosine_similarity v1 v2.
Proof.
  unfold Py.cosine_similarity, cosine_similarity.
  destruct (dot_product_floats v1 v2) as [s [-> Hf]]. simpl.
  rewrite !magnitude_floats.
  destruct (magnitude v1) as [m1|e]; simpl; [|reflexivity].
  destruct (magnitude v2) as [m2|e]; simpl; [|reflexivity].
  unfold Py.truediv. rewrite Hf. reflexivity.
Qed.

Lemma floats_numbers v : forallb is_float v = true -> exists u, v = numbers u.
Proof.
  induction v as [|x v IH]; simpl; intros H; [exists []; reflexivity|].
  apply andb_true_iff in H. destruct H as [Hx Hv].
  destruct (IH Hv) as [u ->]. destruct x as [n|x]; [discriminate|].
  exists (x :: u). reflexivity.
Qed.

Lemma cosine_similarity_floats_total v1 v2 :
  forallb is_float v1 = true -> forallb is_float v2 = true ->
  exists r, Py.cosine_similarity v1 v2 = Ok r.
Proof.
  intros H1 H2. destruct (floats_numbers _ H1) as [u1 ->].
  destruct (floats_numbers _ H2) as [u2 ->].
  rewrite cosine_similarity_floats. apply cosine_similarity_total.
Qed.

Lemma tame_score v1 v2 :
  Py.tame v1 v2 -> exists r, Py.cosine_similarity v1 v2 = Ok r.
Proof.
  intros [[H1 H2]|[H1 H2]];
    [apply cosine_similarity_floats_total|apply cosine_similarity_moderate];
    assumption.
Qed.

Lemma computes_score q embedding :
  Py.computes q embedding -> exists score, Py.cosine_similarity q embedding = Ok score.
Proof. intros [H|H]; [apply tame_score|]; assumption. Qed.

(** The loop and the ranking agree as well. *)
Lemma iteration_floats q acc mem :
  Py.iteration (numbers q) acc (number_record mem) = iteration q acc mem.
Proof.
  unfold Py.iteration, iteration, number_record. simpl.
  destruct (mem_embedding mem) as [[|a emb]|]; simpl; try reflexivity.
  change (NFloat a :: numbers emb) with (numbers (a :: emb)).
  rewrite cosine_similarity_floats. reflexivity.
Qed.

Lemma for_each_floats q mems : forall acc,
  Py.for_each (numbers q) (map number_record mems) acc = for_each q mems acc.
Proof.
  induction mems as [|mem mems IH]; intros acc; simpl; [reflexivity|].
  rewrite iteration_floats. destruct (iteration q acc mem); simpl; [apply IH|reflexivity].
Qed.

Lemma rank_floats q mems k :
  Py.rank (numbers q) (map number_record mems) k = rank q mems k.
Proof. unfold Py.rank, rank. rewrite for_each_floats. reflexivity. Qed.

(** ** Zero vectors *)

Lemma sum_squares_from_zero v : forall total,
  Py.zero_vector v -> (total = NInt 0 \/ total = NFloat (S754_zero false)) ->
  exists s, Py.sum_from (fun a => Py.mul a a) total v = Ok s /\
            (s = NInt 0 \/ s = NFloat (S754_zero false)).
Proof.
  unfold Py.zero_vector.
  induction v as [|a v IH]; intros total Hz Ht; simpl; [eauto|].
  simpl in Hz. apply andb_true_iff in Hz. destruct Hz as [Ha Hv].
  assert (Hstep : exists total', (t <- Py.mul a a ;; Py.add total t) = Ok total' /\
                    (total' = NInt 0 \/ total' = NFloat (S754_zero false))).
  { destruct a as [n|x]; simpl in Ha.
    - apply Z.eqb_eq in Ha. subst. destruct Ht as [->| ->]; simpl; eauto.
    - destruct x as [[]|[]| |[] ? ?]; try discriminate Ha;
        destruct Ht as [->| ->]; simpl; eauto. }
  destruct Hstep as [total' [Hs Ht']].
  destruct (Py.mul a a) as [t|e]; simpl in *; [|discriminate].
  rewrite Hs. simpl. apply IH; assumption.
Qed.

Lemma zero_vector_is_zero_magnitude v : Py.zero_vector v -> Py.is_zero_magnitude v.
Proof.
  intros Hz. exists (S754_zero false). split; [|reflexivity].
  unfold Py.magnitude, Py.sum_squares, Py.sum.
  destruct (@sum_squares_from_zero v (NInt 0) Hz (or_introl eq_refl)) as [s [-> [->| ->]]];
    reflexivity.
Qed.

Lemma zero_magnitude_score v1 v2 r :
  Py.is_zero_magnitude v1 \/ Py.is_zero_magnitude v2 ->
  Py.cosine_similarity v1 v2 = Ok r -> r = S754_zero false.
Proof.
  unfold Py.cosine_similarity. intros Hz.
  destruct (Py.dot_product v1 v2) as [dot|e]; simpl; [|discriminate].
  destruct (Py.magnitude v1) as [m1|e] eqn:E1; simpl; [|discriminate].
  destruct (Py.magnitude v2) as [m2|e] eqn:E2; simpl; [|discriminate].
  assert (Hg : negb (truthy m1) || negb (truthy m2) = true).
  { destruct Hz as [[m [Hm Hz]]|[m [Hm Hz]]].
    - rewrite E1 in Hm. inversion Hm; subst. unfold truthy. rewrite Hz. reflexivity.
    - rewrite E2 in Hm. inversion Hm; subst. unfold truthy at 2. rewrite Hz.
      apply orb_true_r. }
  rewrite Hg. intros H. inversion H. reflexivity.
Qed.

(** ** The pairs of [zip] *)

Lemma sum_from_map (A B : Type) (f : A -> B) (term : B -> result number) l :
  forall total,
    Py.sum_from term total (map f l) = Py.sum_from (fun x => term (f x)) total l.
Proof.
  induction l as [|x l IH]; intros total; simpl; [reflexivity|].
  destruct (term (f x)) as [t|e]; simpl; [|reflexivity].
  destruct (Py.add total t); simpl; [apply IH|reflexivity].
Qed.

Lemma zip_by_index (A : Type) (d : A) (v1 : list A) : forall v2,
  zip v1 v2
  = map (fun i => (nth i v1 d, nth i v2 d)) (seq 0 (Nat.min (length v1) (length v2))).
Proof.
  induction v1 as [|a v1 IH]; intros [|b v2]; simpl; try reflexivity.
  f_equal. rewrite <- seq_shift, map_map. apply IH.
Qed.

Lemma dot_product_by_index v1 v2 :
  Py.dot_product v1 v2
  = Py.sum (fun i => Py.mul (nth i v1 (NInt 0)) (nth i v2 (NInt 0)))
           (seq 0 (Nat.min (length v1) (length v2))).
Proof.
  unfold Py.dot_product, Py.sum. rewrite (zip_by_index (NInt 0)).
  rewrite sum_from_map. reflexivity.
Qed.

(** ** The loop over memories of numbers *)

Lemma py_iteration_skip q acc mem :
  Py.has_embedding mem = false -> Py.iteration q acc mem = Ok acc.
Proof.
  unfold Py.has_embedding, Py.iteration.
  destruct (Py.mem_embedding mem) as [[|a emb]|]; intros H; try discriminate; reflexivity.
Qed.

Lemma py_for_each_length q mems : forall acc res,
  Py.for_each q mems acc = Ok res ->
  length res = length acc + length (filter Py.has_embedding mems).
Proof.
  induction mems as [|mem mems IH]; intros acc res; simpl.
  - intros H. inversion H. lia.
  - destruct (Py.iteration q acc mem) as [acc'|e] eqn:E; simpl; [|discriminate].
    intros H. rewrite (IH _ _ H). clear IH H.
    unfold Py.iteration, Py.has_embedding in *.
    destruct (Py.mem_embedding mem) as [[|a emb]|]; try (inversion E; subst; simpl; lia).
    destruct (Py.cosine_similarity q (a :: emb)); simpl in E; [|discriminate].
    destruct (getitem (Py.mem_content mem) "content"); simpl in E; [|discriminate].
    inversion E; subst. rewrite length_app. simpl. lia.
Qed.

Lemma py_for_each_ok q mems : forall acc,
  (forall mem, In mem mems -> Py.has_embedding mem = true -> Py.mem_content mem <> None) ->
  (forall mem embedding, In mem mems -> Py.mem_embedding mem = Some embedding ->
     embedding <> [] -> Py.computes q embedding) ->
  exists res, Py.for_each q mems acc = Ok res.
Proof.
  induction mems as [|mem mems IH]; intros acc Hc Hs; simpl; [eexists; reflexivity|].
  assert (Hi : exists acc', Py.iteration q acc mem = Ok acc').
  { specialize (Hc mem (or_introl eq_refl)). specialize (Hs mem).
    unfold Py.iteration, Py.has_embedding in *.
    destruct (Py.mem_embedding mem) as [[|a emb]|]; try (eexists; reflexivity).
    destruct (computes_score (Hs (a :: emb) (or_introl eq_refl) eq_refl ltac:(discriminate)))
      as [score ->]. simpl.
    destruct (Py.mem_content mem); [eexists; reflexivity|].
    exfalso. apply Hc; reflexivity. }
  destruct Hi as [acc' ->]. simpl. apply IH.
  - intros m Hin. apply Hc. right. assumption.
  - intros m emb Hin. apply Hs. right. assumption.
Qed.

(** The whole run agrees too, when the library calls return floats. *)
Lemma stdout_of_floats json_loads int_of_str open_json_load argv :
  Py.stdout_of (fun s => v <- json_loads s ;; Ok (numbers v)) int_of_str
               (fun f => m <- open_json_load f ;; Ok (map number_record m)) argv
  = stdout_of json_loads int_of_str open_json_load argv.
Proof.
  unfold Py.stdout_of, stdout_of, Py.main, main, try_except, Py.main_try, main_try,
    io_bind, lift, print.
  destruct (argv_get argv 1) as [a1|e]; simpl; [|reflexivity].
  destruct (json_loads a1) as [q|e]; simpl; [|reflexivity].
  destruct (argv_get argv 2) as [a2|e]; simpl; [|reflexivity].
  destruct (argv_get argv 3) as [a3|e]; simpl; [|reflexivity].
  destruct (int_of_str a3) as [k|e]; simpl; [|reflexivity].
  destruct (open_json_load a2) as [mems|e]; simpl; [|reflexivity].
  rewrite rank_floats. reflexivity.
Qed.

(** * The claims *)

(** ** Scoring *)

(** C6 (amended).  On vectors of JSON numbers [cosine_similarity] never
    raises a division error: the only exception it can raise is the
    [OverflowError] of an int too large to convert to a float.  When the
    magnitude computed for either vector is zero, or one of the vectors is
    all zeros or empty, it returns exactly [0.0], unless the dot product or
    one of the two magnitudes raises that exception; and it does return
    [0.0] when all the components are floats, and when the two vectors are
    of moderate size. *)
Theorem cosine_similarity_zero_magnitude (v1 v2 : list number) :
  (forall e, Py.cosine_similarity v1 v2 = Raise e -> e = too_large) /\
  (Py.is_zero_magnitude v1 \/ Py.is_zero_magnitude v2 \/
   Py.zero_vector v1 \/ Py.zero_vector v2 ->
   (Py.cosine_similarity v1 v2 = Ok (S754_zero false) \/
    Py.cosine_similarity v1 v2 = Raise too_large /\
    (Py.dot_product v1 v2 = Raise too_large \/
     Py.magnitude v1 = Raise too_large \/ Py.magnitude v2 = Raise too_large)) /\
   (Py.tame v1 v2 -> Py.cosine_similarity v1 v2 = Ok (S754_zero false))).
Proof.
  split; [intros e; apply cosine_similarity_raises|].
  intros Hz.
  assert (Hm : Py.is_zero_magnitude v1 \/ Py.is_zero_magnitude v2).
  { destruct Hz as [H|[H|[H|H]]]; auto using zero_vector_is_zero_magnitude. }
  split.
  - destruct (Py.cosine_similarity v1 v2) as [r|e] eqn:Ec.
    + left. f_equal. eapply zero_magnitude_score; eassumption.
    + right. pose proof (cosine_similarity_raises _ _ Ec) as ->.
      split; [reflexivity|]. revert Ec. unfold Py.cosine_similarity.
      destruct (Py.dot_product v1 v2) as [dot|e0] eqn:Ed; simpl bind.
      2:{ intros _. left. f_equal. eapply dot_product_raises; eassumption. }
      destruct (Py.magnitude v1) as [m1|e1] eqn:E1; simpl bind.
      2:{ intros _. right. left. f_equal. eapply magnitude_raises; eassumption. }
      destruct (Py.magnitude v2) as [m2|e2] eqn:E2; simpl bind.
      2:{ intros _. right. right. f_equal. eapply magnitude_raises; eassumption. }
      assert (Hg : negb (truthy m1) || negb (truthy m2) = true).
      { destruct Hm as [[m [Hm Hz0]]|[m [Hm Hz0]]].
        - rewrite E1 in Hm. inversion Hm; subst. unfold truthy. rewrite Hz0.
          reflexivity.
        - rewrite E2 in Hm. inversion Hm; subst. unfold truthy at 2. rewrite Hz0.
          apply orb_true_r. }
      rewrite Hg. discriminate.
  - intros Ht. destruct (tame_score Ht) as [r Hr].
    rewrite Hr. f_equal. eapply zero_magnitude_score; eassumption.
Qed.

Lemma cosine_similarity_zero_magnitude_witness :
  Py.cosine_similarity [NInt 0; NInt 0] [NInt 3; NFloat f_1_2] = Ok (S754_zero false) /\
  Py.cosine_similarity [NFloat f_1; NFloat f_1e200] [NFloat f_0; NFloat f_0]
  = Ok (S754_zero false).
Proof.
  split.
  - apply (proj2 (cosine_similarity_zero_magnitude [NInt 0; NInt 0] [NInt 3; NFloat f_1_2])).
    + right. right. left. reflexivity.
    + right. split; (split; [reflexivity|apply Z.leb_le; reflexivity]).
  - apply (proj2 (cosine_similarity_zero_magnitude
                    [NFloat f_1; NFloat f_1e200] [NFloat f_0; NFloat f_0])).
    + right. right. right. reflexivity.
    + left. split; reflexivity.
Defined.

(** C6, as stated, fails: against a vector of zeros, an int whose square is
    too large for a float makes [math.sqrt] raise at line 9, and an int too
    large for a float makes the product raise at line 7, before the guard
    of line 10 is reached. *)
Lemma zero_vector_overflow :
  Py.zero_vector [NInt 0] /\ Py.zero_vector [NFloat f_0] /\
  Py.dot_product [NInt 0] [NInt n_huge] = Ok (NInt 0) /\
  Py.magnitude [NInt 0] = Ok (S754_zero false) /\
  Py.magnitude [NInt n_huge] = Raise too_large /\
  Py.cosine_similarity [NInt 0] [NInt n_huge] = Raise too_large /\
  Py.cosine_similarity [NInt n_huge] [NInt 0] = Raise too_large /\
  Py.dot_product [NFloat f_0] [NInt (n_huge * n_huge)] = Raise too_large /\
  Py.cosine_similarity [NFloat f_0] [NInt (n_huge * n_huge)] = Raise too_large /\
  str_exn too_large = "int too large to convert to float"%string.
Proof. vm_compute. repeat split. Qed.

(** C7 (amended).  On vectors of JSON numbers of any lengths, equal or
    not, [cosine_similarity] returns what the following computes: the sum
    of the products of the components at the positions below the shorter
    length, divided by the product of the magnitudes of the whole vectors,
    or [0.0] when a magnitude is zero.  A difference of lengths is no
    error: the only exception it can raise is the [OverflowError] of an int
    too large to convert to a float, and it raises nothing when all the
    components are floats, nor when the two vectors are of moderate
    size. *)
Theorem cosine_similarity_zip_shortest (v1 v2 : list number) :
  Py.cosine_similarity v1 v2
  = (dot <- Py.sum (fun i => Py.mul (nth i v1 (NInt 0)) (nth i v2 (NInt 0)))
                   (seq 0 (Nat.min (length v1) (length v2))) ;;
     magnitude1 <- Py.magnitude v1 ;;
     magnitude2 <- Py.magnitude v2 ;;
     if negb (truthy magnitude1) || negb (truthy magnitude2)
     then Ok (S754_zero false)
     else d <- Py.as_float dot ;;
          Ok (SFdiv prec emax d (SFmul prec emax magnitude1 magnitude2))) /\
  Py.dot_product v1 v2
  = Py.dot_product (firstn (Nat.min (length v1) (length v2)) v1)
                   (firstn (Nat.min (length v1) (length v2)) v2) /\
  (forall e, Py.cosine_similarity v1 v2 = Raise e -> e = too_large) /\
  (Py.tame v1 v2 -> exists r, Py.cosine_similarity v1 v2 = Ok r).
Proof.
  split; [|split; [|split]].
  - unfold Py.cosine_similarity. rewrite dot_product_by_index.
    destruct (Py.sum _ _) as [dot|e]; simpl bind; [|reflexivity].
    destruct (Py.magnitude v1) as [m1|e] eqn:E1; simpl bind; [|reflexivity].
    destruct (Py.magnitude v2) as [m2|e] eqn:E2; simpl bind; [|reflexivity].
    destruct (negb (truthy m1) || negb (truthy m2)) eqn:E; [reflexivity|].
    apply truediv_magnitudes; eauto using magnitude_in_range.
  - unfold Py.dot_product, zip. rewrite zip_firstn_min. reflexivity.
  - intros e. apply cosine_similarity_raises.
  - apply tame_score.
Qed.

Lemma cosine_similarity_zip_shortest_witness :
  exists r, Py.cosine_similarity [NInt 1; NInt 2; NInt 3] [NFloat f_1_2; NInt 1] = Ok r.
Proof.
  apply (proj2 (proj2 (proj2 (cosine_similarity_zip_shortest
                                [NInt 1; NInt 2; NInt 3] [NFloat f_1_2; NInt 1])))).
  right. split; (split; [reflexivity|apply Z.leb_le; reflexivity]).
Defined.

(** C7, as stated, fails: an int beyond the shorter length takes no part
    in the dot product, yet its square makes the magnitude of line 8
    raise. *)
Lemma unequal_lengths_overflow :
  Py.dot_product [NInt 1; NInt n_huge] [NInt 1] = Ok (NInt 1) /\
  Py.magnitude [NInt 1; NInt n_huge] = Raise too_large /\
  Py.cosine_similarity [NInt 1; NInt n_huge] [NInt 1] = Raise too_large /\
  Py.cosine_similarity [NInt 1] [NInt 1; NInt n_huge] = Raise too_large /\
  str_exn too_large = "int too large to convert to float"%string.
Proof. vm_compute. repeat split. Qed.

Section ExactClaim.
Local Open Scope R_scope.
Local Existing Instance exact_real.

(** C9 (amended).  Read over the exact reals, [cosine_similarity] returns
    a value between [-1] and [1] for every pair of vectors, of equal length
    or not. *)
Theorem cosine_similarity_exact_bounded (v1 v2 : list R) :
  exists r, @cosine_similarity R exact_real v1 v2 = Ok r /\ -1 <= r <= 1.
Proof.
  unfold cosine_similarity. rewrite !magnitude_exact. simpl bind.
  destruct (negb (truthy _) || negb (truthy _)) eqn:E.
  - exists 0. simpl f_zero. split; [reflexivity|lra].
  - apply orb_false_elim in E. destruct E as [E1 E2].
    apply negb_false_iff in E1, E2. unfold truthy in E1, E2.
    apply negb_true_iff in E1, E2. simpl f_eqb in E1, E2. simpl f_zero in E1, E2.
    apply Reqb_false in E1, E2.
    pose proof (sum_squares_exact_nonneg v1) as HA.
    pose proof (sum_squares_exact_nonneg v2) as HB.
    pose proof (sqrt_pos (sum_squares v1)) as Hs1.
    pose proof (sqrt_pos (sum_squares v2)) as Hs2.
    set (A := sum_squares v1) in *. set (B := sum_squares v2) in *.
    assert (HA' : 0 < A).
    { destruct (Rle_lt_or_eq_dec _ _ HA) as [?|Hz]; [assumption|].
      exfalso. apply E1. rewrite <- Hz. apply sqrt_0. }
    pose proof (cauchy_schwarz v1 v2 HA') as Hcs. fold A B in Hcs.
    set (D := dot_product v1 v2) in *.
    assert (Hm : 0 < sqrt A * sqrt B) by nra.
    assert (Hsq : (sqrt A * sqrt B) * (sqrt A * sqrt B) = A * B).
    { pose proof (sqrt_sqrt A HA). pose proof (sqrt_sqrt B HB). nra. }
    unfold truediv. simpl f_eqb. simpl f_zero. simpl f_mul. simpl f_div.
    assert (Hnz : Reqb (sqrt A * sqrt B) 0 = false) by (apply Reqb_false; lra).
    rewrite Hnz. eexists. split; [reflexivity|].
    assert (Habs : - (sqrt A * sqrt B) <= D <= sqrt A * sqrt B) by nra.
    split.
    + apply Rmult_le_reg_r with (sqrt A * sqrt B); [assumption|].
      unfold Rdiv. rewrite Rmult_assoc, Rinv_l by lra. lra.
    + apply Rmult_le_reg_r with (sqrt A * sqrt B); [assumption|].
      unfold Rdiv. rewrite Rmult_assoc, Rinv_l by lra. lra.
Qed.

End ExactClaim.

(** C9, as stated, fails on floats: after an underflow the score is [1.2],
    and after an overflow it is a NaN. *)
Lemma cosine_similarity_out_of_range :
  cosine_similarity [f_tiny] [f_1] = Ok f_1_2 /\
  in_unit_interval f_1_2 = false /\
  cosine_similarity [f_1e200] [f_1e200] = Ok nan /\
  in_unit_interval nan = false.
Proof. vm_compute. repeat split. Qed.


(** ** Ranking *)

(** C1 (amended).  A memory that has a non-empty embedding and a content,
    and whose score is computed, is scored and appended without any
    failure, whatever else is missing: a missing id becomes ["unknown"]
    and missing metadata become [{}].  The score is computed whenever the
    query and the embedding hold floats only, and whenever they are of
    moderate size. *)
Theorem iteration_defaults q results mem embedding content :
  Py.mem_embedding mem = Some embedding -> embedding <> [] ->
  Py.mem_content mem = Some content ->
  Py.computes q embedding ->
  exists r,
    Py.iteration q results mem = Ok (results ++ [r]) /\
    Py.cosine_similarity q embedding = Ok (res_score r) /\
    res_content r = content /\
    res_id r = dict_get (Py.mem_id mem) (JString "unknown") /\
    res_metadata r = dict_get (Py.mem_metadata mem) (JObject []) /\
    (Py.mem_id mem = None -> res_id r = JString "unknown") /\
    (Py.mem_metadata mem = None -> res_metadata r = JObject []).
Proof.
  intros He Hne Hc Hs. unfold Py.iteration. rewrite He, Hc.
  destruct embedding as [|a emb]; [congruence|].
  destruct (computes_score Hs) as [score Hscore]. rewrite Hscore. simpl.
  eexists. split; [reflexivity|]. simpl. repeat split; try assumption.
  - intros ->. reflexivity.
  - intros ->. reflexivity.
Qed.

Lemma iteration_defaults_witness :
  exists r,
    Py.iteration [NInt 1; NInt 0] [] num_mem_bare = Ok ([] ++ [r]) /\
    Py.cosine_similarity [NInt 1; NInt 0] [NInt 1; NInt 0] = Ok (res_score r) /\
    res_content r = JString "x" /\
    res_id r = dict_get (Py.mem_id num_mem_bare) (JString "unknown") /\
    res_metadata r = dict_get (Py.mem_metadata num_mem_bare) (JObject []) /\
    (Py.mem_id num_mem_bare = None -> res_id r = JString "unknown") /\
    (Py.mem_metadata num_mem_bare = None -> res_metadata r = JObject []).
Proof.
  apply (@iteration_defaults [NInt 1; NInt 0] [] num_mem_bare [NInt 1; NInt 0]
           (JString "x")); [reflexivity|discriminate|reflexivity|].
  left. right. split; (split; [reflexivity|apply Z.leb_le; reflexivity]).
Defined.

(** C1, as stated, fails, in two ways.  A memory with an embedding and no
    content makes the iteration, the ranking and the whole run fail with a
    [KeyError]; and a memory that lacks nothing, with an int in its
    embedding whose square is too large for a float, makes them fail with
    an [OverflowError]. *)
Lemma iteration_failures :
  Py.has_embedding num_mem_no_content = true /\
  Py.iteration [NFloat f_1] [] num_mem_no_content = Raise (KeyError "content") /\
  Py.rank [NFloat f_1] [num_mem_no_content] 1 = Raise (KeyError "content") /\
  Py.stdout_of (num_loads_const [NFloat f_1]) (int_const 1)
               (num_load_const [num_mem_no_content]) (argv_for "1")
  = [ JArray [ JObject [ ("error"%string, JString "'content'") ] ] ] /\
  Py.has_embedding (num_mem "big" [NInt n_huge]) = true /\
  Py.iteration [NInt 1] [] (num_mem "big" [NInt n_huge]) = Raise too_large /\
  Py.rank [NInt 1] [num_mem "big" [NInt n_huge]] 1 = Raise too_large /\
  Py.stdout_of (num_loads_const [NInt 1]) (int_const 1)
               (num_load_const [num_mem "big" [NInt n_huge]]) (argv_for "1")
  = [ JArray [ JObject [ ("error"%string,
                          JString "int too large to convert to float") ] ] ].
Proof. vm_compute. repeat split. Qed.

(** C2 (amended).  When no computed score is a NaN, the results that
    [rank] returns come from distinct memories, and any two of them with
    equal scores stand in the order of their memories in the input. *)
Theorem rank_stable q mems k results :
  for_each q mems [] = Ok results ->
  no_nan res_score results ->
  exists out idx,
    rank q mems k = Ok out /\
    Forall2 (fun r p => exists mem, nth_error mems p = Some mem /\ scored_as q mem r)
            out idx /\
    NoDup idx /\
    forall i j ri rj pi pj,
      i < j ->
      nth_error out i = Some ri -> nth_error out j = Some rj ->
      nth_error idx i = Some pi -> nth_error idx j = Some pj ->
      SFeqb (res_score ri) (res_score rj) = true ->
      pi < pj.
Proof.
  intros Hloop Hnan.
  destruct (for_each_positions _ _ _ Hloop) as [rs [pos [Hres [Hlen [Hs [_ Hf]]]]]].
  simpl in Hres. subst rs.
  destruct (list_sort_reverse_stable Hnan Hlen Hs) as [idx [Hin [Hnd Hst]]].
  unfold rank. rewrite Hloop. simpl. unfold slice_to.
  set (n := Z.to_nat _). exists (firstn n (list_sort_reverse res_score results)).
  exists (firstn n idx). split; [reflexivity|]. repeat split.
  - apply Forall2_firstn. revert Hin. apply Forall2_impl.
    intros r p Hrp. exact (@Forall2_combine_in _ _ _ _ _ r p Hf Hrp).
  - apply NoDup_firstn. assumption.
  - intros i j ri rj pi pj Hij Hi Hj Hpi Hpj Heq.
    apply nth_error_firstn_some in Hi, Hj, Hpi, Hpj.
    eapply Hst; eassumption.
Qed.

Lemma rank_stable_witness :
  exists out idx,
    rank [f_1; f_0] [mem_b; mem_a; mem_of "b2" [f_0; f_1]] 3 = Ok out /\
    Forall2 (fun r p => exists mem,
               nth_error [mem_b; mem_a; mem_of "b2" [f_0; f_1]] p = Some mem /\
               scored_as [f_1; f_0] mem r)
            out idx /\
    NoDup idx /\
    forall i j ri rj pi pj,
      i < j ->
      nth_error out i = Some ri -> nth_error out j = Some rj ->
      nth_error idx i = Some pi -> nth_error idx j = Some pj ->
      SFeqb (res_score ri) (res_score rj) = true ->
      pi < pj.
Proof.
  eapply (@rank_stable [f_1; f_0] [mem_b; mem_a; mem_of "b2" [f_0; f_1]] 3).
  - vm_compute. reflexivity.
  - repeat constructor.
Defined.

(** C2, as stated, fails: with NaN scores among the keys the binary search
    of the sort goes astray, and of the two memories of score [0.0] the
    one at position 2 of the input comes out before the one at position 0. *)
Lemma rank_unstable_with_nan :
  exists out ra rb,
    rank [f_1e100] unstable_memories 7 = Ok out /\
    map res_id out
    = [ JString "b"; JString "n1"; JString "y"; JString "a";
        JString "x"; JString "n2"; JString "z" ] /\
    nth_error unstable_memories 0 = Some (mem_of "a" [f_0]) /\
    nth_error unstable_memories 2 = Some (mem_of "b" [f_0]) /\
    scored_as [f_1e100] (mem_of "a" [f_0]) ra /\
    scored_as [f_1e100] (mem_of "b" [f_0]) rb /\
    nth_error out 0 = Some rb /\ nth_error out 3 = Some ra /\
    SFeqb (res_score rb) (res_score ra) = true /\
    ~ (exists idx,
         Forall2 (fun r p => exists mem, nth_error unstable_memories p = Some mem /\
                                         scored_as [f_1e100] mem r) out idx /\
         forall i j ri rj pi pj,
           i < j ->
           nth_error out i = Some ri -> nth_error out j = Some rj ->
           nth_error idx i = Some pi -> nth_error idx j = Some pj ->
           SFeqb (res_score ri) (res_score rj) = true ->
           pi < pj).
Proof.
  eexists. eexists. eexists. split; [vm_compute; reflexivity|].
  split; [reflexivity|]. split; [reflexivity|]. split; [reflexivity|].
  split; [vm_compute; reflexivity|]. split; [vm_compute; reflexivity|].
  split; [reflexivity|]. split; [reflexivity|]. split; [reflexivity|].
  intros [idx [HF Hst]].
  inversion HF as [|rb p0 ? rest0 [m0 [Hm0 Hs0]] HF1]; subst.
  inversion HF1 as [|r1 p1 ? rest1 _ HF2]; subst.
  inversion HF2 as [|r2 p2 ? rest2 _ HF3]; subst.
  inversion HF3 as [|ra p3 ? rest3 [m3 [Hm3 Hs3]] _]; subst.
  assert (Hp0 : p0 = 2).
  { unfold scored_as in Hs0.
    destruct p0 as [|[|[|[|[|[|[|p0]]]]]]]; simpl in Hm0; try reflexivity;
      try (destruct p0; discriminate Hm0);
      inversion Hm0; subst; vm_compute in Hs0; discriminate Hs0. }
  assert (Hp3 : p3 = 0).
  { unfold scored_as in Hs3.
    destruct p3 as [|[|[|[|[|[|[|p3]]]]]]]; simpl in Hm3; try reflexivity;
      try (destruct p3; discriminate Hm3);
      inversion Hm3; subst; vm_compute in Hs3; discriminate Hs3. }
  subst.
  assert (Habs : 2 < 0); [|lia].
  eapply (Hst 0 3); [lia|reflexivity|reflexivity|reflexivity|reflexivity|reflexivity].
Qed.

(** C3 (amended).  For a non-negative [top_k] and memories in which every
    non-empty embedding comes with a content and has its score computed,
    [rank] returns as many results as the smaller of [top_k] and the
    number of memories with a non-empty embedding. *)
Theorem rank_length q mems k :
  (0 <= k)%Z ->
  (forall mem, In mem mems -> Py.has_embedding mem = true ->
               Py.mem_content mem <> None) ->
  (forall mem embedding, In mem mems -> Py.mem_embedding mem = Some embedding ->
                         embedding <> [] -> Py.computes q embedding) ->
  exists out, Py.rank q mems k = Ok out /\
    Z.of_nat (length out) = Z.min k (Z.of_nat (length (filter Py.has_embedding mems))).
Proof.
  intros Hk Hc Hs. destruct (@py_for_each_ok q mems [] Hc Hs) as [results Hloop].
  pose proof (py_for_each_length _ _ _ Hloop) as Hn. simpl in Hn.
  unfold Py.rank. rewrite Hloop. simpl. eexists. split; [reflexivity|].
  unfold slice_to. rewrite length_firstn, list_sort_reverse_length, Hn.
  destruct (k <? 0)%Z eqn:E; lia.
Qed.

Lemma rank_length_witness :
  exists out,
    Py.rank [NInt 1; NInt 0]
            [num_mem "a" [NInt 1; NInt 0]; num_mem "b" [NFloat f_0; NFloat f_1];
             num_mem "c" []] 5 = Ok out /\
    Z.of_nat (length out)
    = Z.min 5 (Z.of_nat (length (filter Py.has_embedding
        [num_mem "a" [NInt 1; NInt 0]; num_mem "b" [NFloat f_0; NFloat f_1];
         num_mem "c" []]))).
Proof.
  apply (@rank_length [NInt 1; NInt 0]
           [num_mem "a" [NInt 1; NInt 0]; num_mem "b" [NFloat f_0; NFloat f_1];
            num_mem "c" []] 5); [discriminate| |].
  - intros mem [<-|[<-|[<-|[]]]] _; discriminate.
  - intros mem embedding [<-|[<-|[<-|[]]]] He Hne; inversion He; subst;
      try congruence; left; right;
      split; (split; [reflexivity|apply Z.leb_le; reflexivity]).
Defined.

(** C3, as stated, fails, in two ways: with [top_k = 0], a memory that has
    an embedding and no content, or one that lacks nothing and has an int
    in its embedding whose square is too large for a float, makes the run
    print the one-element error document, not the empty list. *)
Lemma rank_length_failures :
  Py.rank [NFloat f_1] [num_mem_no_content] 0 = Raise (KeyError "content") /\
  Py.stdout_of (num_loads_const [NFloat f_1]) (int_const 0)
               (num_load_const [num_mem_no_content]) (argv_for "0")
  = [ JArray [ JObject [ ("error"%string, JString "'content'") ] ] ] /\
  Py.mem_content (num_mem "big" [NInt n_huge]) <> None /\
  Py.rank [NInt 1] [num_mem "big" [NInt n_huge]] 0 = Raise too_large /\
  ~ (exists out, Py.rank [NInt 1] [num_mem "big" [NInt n_huge]] 0 = Ok out /\
       Z.of_nat (length out)
       = Z.min 0 (Z.of_nat (length (filter Py.has_embedding
                                      [num_mem "big" [NInt n_huge]])))) /\
  Py.stdout_of (num_loads_const [NInt 1]) (int_const 0)
               (num_load_const [num_mem "big" [NInt n_huge]]) (argv_for "0")
  = [ JArray [ JObject [ ("error"%string,
                          JString "int too large to convert to float") ] ] ].
Proof.
  split; [vm_compute; reflexivity|]. split; [vm_compute; reflexivity|].
  split; [discriminate|]. split; [vm_compute; reflexivity|].
  split; [|vm_compute; reflexivity].
  intros [out [H _]]. vm_compute in H. discriminate H.
Qed.

(** C4 (amended).  When no computed score is a NaN, the scores of the
    results that [rank] returns never increase from one position to a
    later one. *)
Theorem rank_descending q mems k results :
  for_each q mems [] = Ok results ->
  no_nan res_score results ->
  exists out, rank q mems k = Ok out /\ descending res_score out.
Proof.
  intros Hloop Hn. unfold rank. rewrite Hloop. simpl. eexists. split; [reflexivity|].
  apply strongly_sorted_firstn, list_sort_reverse_descending. assumption.
Qed.

Lemma rank_descending_witness :
  exists out, rank [f_1; f_0] [mem_b; mem_a; mem_c] 2 = Ok out /\
              descending res_score out.
Proof.
  eapply (@rank_descending [f_1; f_0] [mem_b; mem_a; mem_c] 2).
  - vm_compute. reflexivity.
  - repeat constructor.
Defined.

(** C4, as stated, fails: an overflow makes one score a NaN, the sort
    leaves the three results where they were, and the scores come out as
    [0.0], NaN, [1.0]. *)
Lemma rank_not_descending_with_nan :
  exists out,
    rank [f_1e100] [mem_of "a" [f_0]; mem_of "b" [f_1e300]; mem_of "c" [f_1]] 3 = Ok out /\
    map res_score out = [f_0; nan; f_1] /\
    SFltb f_0 f_1 = true /\
    ~ descending res_score out.
Proof.
  eexists. split; [vm_compute; reflexivity|]. split; [reflexivity|].
  split; [reflexivity|].
  intros H. inversion H as [|? ? _ Hf]; subst.
  inversion Hf as [|? ? Hge _]; subst. discriminate Hge.
Qed.

(** C5.  A memory whose embedding is missing or empty changes nothing:
    the ranking is the same, result or exception, as without it. *)
Theorem rank_skips_missing_embedding q before mem after k :
  mem_embedding mem = None \/ mem_embedding mem = Some [] ->
  rank q (before ++ mem :: after) k = rank q (before ++ after) k.
Proof.
  intros H. assert (Hm : has_embedding mem = false).
  { unfold has_embedding. destruct H as [-> | ->]; reflexivity. }
  unfold rank. rewrite !for_each_app. simpl.
  destruct (for_each q before []) as [acc|e]; simpl; [|reflexivity].
  rewrite iteration_skip by assumption. reflexivity.
Qed.

Lemma rank_skips_missing_embedding_witness :
  rank [f_1; f_0] ([mem_a] ++ mem_no_embedding :: [mem_b]) 2
  = rank [f_1; f_0] ([mem_a] ++ [mem_b]) 2.
Proof.
  apply (@rank_skips_missing_embedding [f_1; f_0] [mem_a] mem_no_embedding [mem_b] 2).
  left. reflexivity.
Defined.

(** ** Output *)



(** ** Concrete runs *)

(** The scenario of the specification: query [[1, 0]], three memories of
    which the last has an empty embedding, [top_k = 2]. *)
Example scenario_rank :
  option_map (map (fun r => (res_id r, res_score r)))
    (match rank [f_1; f_0] [mem_a; mem_b; mem_c] 2 with
     | Ok rs => Some rs | Raise _ => None end)
  = Some [ (JString "a", f_1); (JString "b", f_0) ].
Proof. vm_compute. reflexivity. Qed.

Example scenario_top_k_zero :
  rank [f_1; f_0] [mem_a; mem_b; mem_c] 0 = Ok [].
Proof. vm_compute. reflexivity. Qed.

Example scenario_negative_top_k :
  option_map (map res_id)
    (match rank [f_1; f_0] [mem_a; mem_b; mem_c] (-1) with
     | Ok rs => Some rs | Raise _ => None end)
  = Some [ JString "a" ].
Proof. vm_compute. reflexivity. Qed.

(** The float literals above are binary64 numbers in canonical form. *)
Example literals_valid :
  forallb (valid_binary prec emax)
    [ f_0; f_1; f_m1; f_1e100; f_1e200; f_1e300; f_tiny; f_1_2 ] = true.
Proof. vm_compute. reflexivity. Qed.

(** A query that [json.loads] rejects: the run prints the error document
    and nothing else. *)
Example scenario_malformed_query :
  stdout_of (fun _ => Raise (LibraryError "JSONDecodeError" "Expecting value"))
            (int_const 2) (load_const [mem_a; mem_b; mem_c]) (argv_for "2")
  = [ JArray [ JObject [ ("error"%string, JString "Expecting value") ] ] ].
Proof. reflexivity. Qed.

(** The scenario of the specification, as printed. *)
Example scenario_main :
  stdout_of (loads_const [f_1; f_0]) (int_const 2)
            (load_const [mem_a; mem_b; mem_c]) (argv_for "2")
  = [ JArray
        [ JObject [ ("content", JString "x"); ("score", JFloat f_1);
                    ("metadata", JObject []); ("id", JString "a") ];
          JObject [ ("content", JString "y"); ("score", JFloat f_0);
                    ("metadata", JObject []); ("id", JString "b") ] ] ]%string.
Proof. vm_compute. reflexivity. Qed.

(** * Further properties of [bin/calc_sim.py] *)

(** ** Where the results come from *)

Lemma scored_as_result_of q mem r : scored_as q mem r -> result_of q mem r.
Proof.
  unfold scored_as, iteration, result_of.
  destruct (mem_embedding mem) as [[|a emb]|]; try discriminate.
  destruct (cosine_similarity q (a :: emb)) as [score|e] eqn:Es; simpl; [|discriminate].
  destruct (mem_content mem) as [c|]; simpl; [|discriminate].
  intros H. inversion H; subst. simpl.
  exists (a :: emb). repeat split; try reflexivity; try assumption.
  discriminate.
Qed.

Lemma Forall2_perm (A B : Type) (R : A -> B -> Prop) l l' :
  Permutation l l' -> forall t, Forall2 R l t ->
  exists t', Permutation t t' /\ Forall2 R l' t'.
Proof.
  induction 1 as [|x l l' Hp IH|x y l|l l' l'' Hp1 IH1 Hp2 IH2]; intros t Hf.
  - inversion Hf; subst. exists []. split; constructor.
  - inversion Hf as [|? b ? t0 Hxb Hf0]; subst.
    destruct (IH _ Hf0) as [t' [Hpt Hft]].
    exists (b :: t'). split; constructor; assumption.
  - inversion Hf as [|? b ? t0 Hyb Hf0]; subst.
    inversion Hf0 as [|? c ? t1 Hxc Hf1]; subst.
    exists (c :: b :: t1). split; [apply perm_swap|repeat constructor; assumption].
  - destruct (IH1 _ Hf) as [t' [Hpt Hft]].
    destruct (IH2 _ Hft) as [t'' [Hpt' Hft']].
    exists t''. split; [eapply perm_trans; eassumption|assumption].
Qed.

(** X1.  Whatever the scores are, NaN included, every result that [rank]
    returns is built from a memory of the input that has a non-empty
    embedding and a content, and no memory is used twice: the content is
    the memory's, the score is [cosine_similarity] of the query and the
    embedding, and id and metadata are the memory's or the defaults. *)
Theorem rank_results_from_memories q mems k out :
  rank q mems k = Ok out ->
  exists idx,
    NoDup idx /\
    Forall2 (fun r p => exists mem, nth_error mems p = Some mem /\ result_of q mem r)
            out idx.
Proof.
  intros H. destruct (rank_results _ _ _ H) as [results [Hloop ->]].
  destruct (for_each_positions _ _ _ Hloop) as [rs [pos [Hres [Hlen [Hs [_ Hf]]]]]].
  simpl in Hres. subst rs.
  pose proof (list_sort_reverse_perm res_score results) as Hperm.
  destruct (Forall2_perm (Permutation_sym Hperm) Hf) as [idx [Hpi Hfi]].
  unfold slice_to. set (n := Z.to_nat _). exists (firstn n idx). split.
  - apply NoDup_firstn. apply (Permutation_NoDup Hpi).
    apply strongly_sorted_lt_NoDup. assumption.
  - apply Forall2_firstn. revert Hfi. apply Forall2_impl.
    intros r p [mem [Hm Hsc]]. exists mem. split; [assumption|].
    apply scored_as_result_of. assumption.
Qed.

Lemma rank_results_from_memories_witness :
  exists out idx,
    rank [f_1e100] unstable_memories 4 = Ok out /\
    NoDup idx /\
    Forall2 (fun r p => exists mem,
               nth_error unstable_memories p = Some mem /\ result_of [f_1e100] mem r)
            out idx.
Proof.
  assert (E : exists out, rank [f_1e100] unstable_memories 4 = Ok out)
    by (eexists; vm_compute; reflexivity).
  destruct E as [out E].
  destruct (@rank_results_from_memories [f_1e100] unstable_memories 4 out E)
    as [idx H].
  exists out, idx. split; [exact E|exact H].
Defined.

(** ** When the ranking fails *)

Lemma iteration_raises q acc mem e :
  iteration q acc mem = Raise e ->
  e = KeyError "content" /\ has_embedding mem = true /\ mem_content mem = None.
Proof.
  unfold iteration, has_embedding.
  destruct (mem_embedding mem) as [[|a emb]|]; try discriminate.
  destruct (cosine_similarity_total q (a :: emb)) as [score ->]. simpl.
  destruct (mem_content mem); simpl; [discriminate|].
  intros H. inversion H. auto.
Qed.

Lemma for_each_raises q mems : forall acc e,
  for_each q mems acc = Raise e <->
  e = KeyError "content" /\
  exists mem, In mem mems /\ has_embedding mem = true /\ mem_content mem = None.
Proof.
  induction mems as [|mem mems IH]; intros acc e; simpl.
  - split; [discriminate|]. intros [_ [m [[] _]]].
  - destruct (iteration q acc mem) as [acc'|e'] eqn:E; simpl.
    + rewrite IH. split; intros [He [m [Hin Hm]]]; split; try assumption.
      * exists m. split; [right; assumption|assumption].
      * destruct Hin as [<-|Hin]; [|exists m; split; assumption].
        exfalso. destruct Hm as [Hemb Hc].
        destruct (iteration_scored q acc mem Hemb) as [Hr|[r [Hr _]]]; [congruence|].
        apply scored_as_result_of in Hr. destruct Hr as [emb [_ [_ [Hc' _]]]]. congruence.
    + apply iteration_raises in E. destruct E as [-> [Hemb Hc]].
      split.
      * intros H. inversion H; subst. split; [reflexivity|].
        exists mem. split; [left; reflexivity|split; assumption].
      * intros [-> _]. reflexivity.
Qed.

(** X2.  On vectors of floats, scoring, sorting and cutting raise in one
    case only: some memory has a non-empty embedding and no ["content"]
    key.  The exception is then [KeyError('content')], whatever [top_k] is
    and wherever the memory stands in the file; the arithmetic, the sort
    and the slice never raise. *)
Theorem rank_raises_iff q mems k e :
  rank q mems k = Raise e <->
  e = KeyError "content" /\
  exists mem, In mem mems /\ has_embedding mem = true /\ mem_content mem = None.
Proof.
  rewrite <- (for_each_raises q mems [] e). unfold rank.
  destruct (for_each q mems []) as [results|e']; simpl; split; intros H;
    try discriminate; assumption.
Qed.

Lemma rank_raises_iff_witness :
  rank [f_1] [mem_a; mem_no_content; mem_b] 0 = Raise (KeyError "content").
Proof.
  apply (proj2 (@rank_raises_iff [f_1] [mem_a; mem_no_content; mem_b] 0
                  (KeyError "content"))).
  split; [reflexivity|]. exists mem_no_content.
  split; [right; left; reflexivity|split; reflexivity].
Defined.

(** ** The slice [results[:top_k]] *)

(** X3.  A negative [top_k] is not an error: the slice drops the last
    [-top_k] results of the sorted list, or all of them when there are
    fewer. *)
Theorem rank_negative_top_k q mems k results :
  (k < 0)%Z ->
  for_each q mems [] = Ok results ->
  exists out dropped,
    rank q mems k = Ok out /\
    list_sort_reverse res_score results = out ++ dropped /\
    length dropped = Nat.min (Z.to_nat (- k)) (length results).
Proof.
  intros Hk Hloop. unfold rank. rewrite Hloop. simpl. unfold slice_to.
  set (sorted := list_sort_reverse res_score results).
  assert (Hlen : length sorted = length results) by apply list_sort_reverse_length.
  set (n := Z.to_nat _).
  exists (firstn n sorted), (skipn n sorted). split; [reflexivity|].
  split; [symmetry; apply firstn_skipn|].
  rewrite length_skipn. unfold n. rewrite Hlen.
  destruct (k <? 0)%Z eqn:E; [|apply Z.ltb_ge in E; lia]. lia.
Qed.

Lemma rank_negative_top_k_witness :
  exists results out dropped,
    for_each [f_1; f_0] [mem_a; mem_b; mem_c] [] = Ok results /\
    rank [f_1; f_0] [mem_a; mem_b; mem_c] (-1) = Ok out /\
    list_sort_reverse res_score results = out ++ dropped /\
    length dropped = Nat.min (Z.to_nat (- (-1))) (length results).
Proof.
  assert (E : exists results, for_each [f_1; f_0] [mem_a; mem_b; mem_c] [] = Ok results)
    by (eexists; vm_compute; reflexivity).
  destruct E as [results E].
  destruct (@rank_negative_top_k [f_1; f_0] [mem_a; mem_b; mem_c] (-1) results
              ltac:(lia) E) as [out [dropped H]].
  exists results, out, dropped. split; [exact E|exact H].
Defined.

(** X4.  When [top_k] is at least the number of scored memories, nothing
    is cut: the output is the whole sorted list, a rearrangement of the
    results in the order of the file. *)
Theorem rank_returns_all q mems k results :
  for_each q mems [] = Ok results ->
  (Z.of_nat (length results) <= k)%Z ->
  rank q mems k = Ok (list_sort_reverse res_score results) /\
  Permutation (list_sort_reverse res_score results) results.
Proof.
  intros Hloop Hk. split; [|apply list_sort_reverse_perm].
  unfold rank. rewrite Hloop. simpl. f_equal. unfold slice_to.
  rewrite list_sort_reverse_length.
  destruct (k <? 0)%Z eqn:E; [apply Z.ltb_lt in E; lia|].
  apply firstn_all2. rewrite list_sort_reverse_length. lia.
Qed.

Lemma rank_returns_all_witness :
  exists results,
    for_each [f_1; f_0] [mem_a; mem_b; mem_c] [] = Ok results /\
    rank [f_1; f_0] [mem_a; mem_b; mem_c] 5
    = Ok (list_sort_reverse res_score results) /\
    Permutation (list_sort_reverse res_score results) results.
Proof.
  assert (E : exists results,
             for_each [f_1; f_0] [mem_a; mem_b; mem_c] [] = Ok results /\
             (Z.of_nat (length results) <= 5)%Z).
  { eexists. split; [vm_compute; reflexivity|]. simpl. lia. }
  destruct E as [results [E Hk]].
  exists results. split; [exact E|].
  exact (@rank_returns_all [f_1; f_0] [mem_a; mem_b; mem_c] 5 results E Hk).
Defined.

(** X5.  A smaller non-negative [top_k] gives a prefix of what a larger one
    gives: the first [k] results do not depend on how many more are asked
    for. *)
Theorem rank_prefix q mems k k' out' :
  (0 <= k <= k')%Z ->
  rank q mems k' = Ok out' ->
  rank q mems k = Ok (firstn (Z.to_nat k) out').
Proof.
  intros Hk H. destruct (rank_results _ _ _ H) as [results [Hloop ->]].
  unfold rank. rewrite Hloop. simpl. f_equal. unfold slice_to.
  set (sorted := list_sort_reverse res_score results).
  destruct (k <? 0)%Z eqn:E; [apply Z.ltb_lt in E; lia|].
  destruct (k' <? 0)%Z eqn:E'; [apply Z.ltb_lt in E'; lia|].
  rewrite firstn_firstn. f_equal. lia.
Qed.

Lemma rank_prefix_witness :
  exists out',
    rank [f_1; f_0] [mem_b; mem_a; mem_c] 2 = Ok out' /\
    rank [f_1; f_0] [mem_b; mem_a; mem_c] 1 = Ok (firstn (Z.to_nat 1) out').
Proof.
  assert (E : exists out', rank [f_1; f_0] [mem_b; mem_a; mem_c] 2 = Ok out')
    by (eexists; vm_compute; reflexivity).
  destruct E as [out' E]. exists out'. split; [exact E|].
  apply (@rank_prefix [f_1; f_0] [mem_b; mem_a; mem_c] 1 2 out'); [lia|exact E].
Defined.

(** ** A query of zero magnitude *)






(** ** The magnitude *)

(** X7.  On floats [math.sqrt] never sees a negative argument, so the
    magnitude of a vector is always returned, and it is never below zero
    nor minus infinity (it is a NaN or plus infinity when the squares
    overflow or a component is not a number). *)
Theorem magnitude_never_negative (v : list float) :
  exists m, magnitude v = Ok m /\ SFltb m (S754_zero false) = false /\
            m <> S754_infinity true.
Proof.
  exists (SFsqrt prec emax (sum_squares v)). split; [apply magnitude_ok|].
  pose proof (SFsqrt_in_range _ (sum_squares_nonnegative v)) as H.
  destruct (SFsqrt prec emax (sum_squares v)) as [s|s| |s m e]; simpl in *.
  - split; [reflexivity|discriminate].
  - subst. split; [reflexivity|discriminate].
  - split; [reflexivity|discriminate].
  - destruct H as [-> _]. split; [reflexivity|discriminate].
Qed.

(** ** The exact reading *)

Section ExactMore.
Local Open Scope R_scope.
Local Existing Instance exact_real.

Lemma dot_product_exact_self (v : list R) : dot_product v v = sum_squares v.
Proof.
  induction v as [|a v IH]; [reflexivity|].
  rewrite dot_product_exact_cons, sum_squares_exact_cons, IH. reflexivity.
Qed.

Lemma sum_squares_exact_scale a (v : list R) :
  sum_squares (map (Rmult a) v) = a * a * sum_squares v.
Proof.
  induction v as [|x v IH].
  - simpl map. rewrite sum_squares_exact_nil. lra.
  - simpl map. rewrite !sum_squares_exact_cons, IH. ring.
Qed.

Lemma dot_product_exact_scale a (v1 : list R) : forall v2,
  dot_product (map (Rmult a) v1) v2 = a * dot_product v1 v2.
Proof.
  induction v1 as [|x v1 IH]; intros v2.
  - simpl map. rewrite dot_product_exact_nil_l. lra.
  - destruct v2 as [|y v2].
    + rewrite !dot_product_exact_nil_r. lra.
    + simpl map. rewrite !dot_product_exact_cons, IH. ring.
Qed.

(** X8.  Read over the exact reals, a vector that is not all zeros has
    similarity [1] with itself. *)
Theorem cosine_similarity_exact_self (v : list R) :
  sum_squares v <> 0 ->
  @cosine_similarity R exact_real v v = Ok 1.
Proof.
  intros Hnz. unfold cosine_similarity. rewrite !magnitude_exact. simpl bind.
  pose proof (sum_squares_exact_nonneg v) as HA.
  assert (Hs : 0 < sqrt (sum_squares v)) by (apply sqrt_lt_R0; lra).
  unfold truthy. simpl f_eqb. simpl f_zero.
  assert (E : Reqb (sqrt (sum_squares v)) 0 = false) by (apply Reqb_false; lra).
  rewrite E. simpl. unfold truediv. simpl f_eqb. simpl f_zero. simpl f_mul. simpl f_div.
  rewrite sqrt_sqrt by assumption.
  assert (E' : Reqb (sum_squares v) 0 = false) by (apply Reqb_false; lra).
  rewrite E'. rewrite dot_product_exact_self. f_equal. field. assumption.
Qed.

Lemma cosine_similarity_exact_self_witness :
  @cosine_similarity R exact_real [2; 0] [2; 0] = Ok 1.
Proof.
  apply (@cosine_similarity_exact_self [2; 0]).
  rewrite !sum_squares_exact_cons, sum_squares_exact_nil. lra.
Defined.

(** X9.  Read over the exact reals, the similarity does not change when
    one vector is stretched by a positive factor. *)
Theorem cosine_similarity_exact_scale a (v1 v2 : list R) :
  0 < a ->
  @cosine_similarity R exact_real (map (Rmult a) v1) v2
  = @cosine_similarity R exact_real v1 v2.
Proof.
  intros Ha. unfold cosine_similarity. rewrite !magnitude_exact. simpl bind.
  rewrite sum_squares_exact_scale, dot_product_exact_scale.
  pose proof (sum_squares_exact_nonneg v1) as HA.
  assert (Hsq : sqrt (a * a * sum_squares v1) = a * sqrt (sum_squares v1)).
  { rewrite sqrt_mult by nra. rewrite sqrt_square by lra. reflexivity. }
  rewrite Hsq. unfold truthy, truediv. simpl f_eqb. simpl f_zero. simpl f_mul. simpl f_div.
  set (s1 := sqrt (sum_squares v1)). set (s2 := sqrt (sum_squares v2)).
  set (D := dot_product v1 v2).
  unfold Reqb.
  destruct (Req_dec_T s1 0) as [Z1|N1].
  - destruct (Req_dec_T (a * s1) 0) as [_|N]; [reflexivity|]. exfalso. apply N. rewrite Z1. ring.
  - assert (Hz : forall x y, x * y = 0 -> x <> 0 -> y <> 0 -> False).
    { intros x y Hxy Hx Hy. destruct (Rmult_integral _ _ Hxy); tauto. }
    assert (Na : a <> 0) by lra.
    destruct (Req_dec_T (a * s1) 0) as [Z|N]; [exfalso; exact (Hz _ _ Z Na N1)|].
    simpl. destruct (Req_dec_T s2 0) as [Z2|N2]; simpl; [reflexivity|].
    destruct (Req_dec_T (a * s1 * s2) 0) as [Z|_]; [exfalso; exact (Hz _ _ Z N N2)|].
    destruct (Req_dec_T (s1 * s2) 0) as [Z|_]; [exfalso; exact (Hz _ _ Z N1 N2)|].
    f_equal. field. repeat split; assumption.
Qed.

Lemma cosine_similarity_exact_scale_witness :
  @cosine_similarity R exact_real (map (Rmult 3) [1; 2]) [2; 1]
  = @cosine_similarity R exact_real [1; 2] [2; 1].
Proof. apply (@cosine_similarity_exact_scale 3 [1; 2] [2; 1]). lra. Defined.

End ExactMore.

(** ** What [main] prints *)

Section MainMore.
Variable json_loads : string -> result (list float).
Variable int_of_str : string -> result Z.
Variable open_json_load : string -> result (list MemoryRecord).



(** X12.  With fewer than three arguments after the script name the run
    prints an error document.  Its message is ["list index out of range"],
    unless the query argument is there and [json.loads] rejects it: the
    message is then the one of that exception. *)
Theorem main_missing_arguments argv :
  length argv < 4 ->
  exists e,
    stdout_of json_loads int_of_str open_json_load argv = [dumps_error e] /\
    (e = IndexError "list index out of range" \/
     exists a1, nth_error argv 1 = Some a1 /\ json_loads a1 = Raise e).
Proof.
  intros Hlen.
  assert (H3 : argv_get argv 3 = Raise (IndexError "list index out of range")).
  { unfold argv_get. destruct (nth_error argv 3) eqn:E; [|reflexivity].
    assert (Hn : nth_error argv 3 <> None) by congruence.
    apply nth_error_Some in Hn. lia. }
  unfold stdout_of, main, try_except, main_try, io_bind, lift, print.
  unfold argv_get at 1. destruct (nth_error argv 1) as [a1|] eqn:E1; simpl.
  - destruct (json_loads a1) as [q|e] eqn:Eq; simpl.
    + destruct (argv_get argv 2) as [file|e] eqn:E2; simpl.
      * rewrite H3. simpl. eauto.
      * unfold argv_get in E2. destruct (nth_error argv 2); inversion E2. eauto.
    + exists e. split; [reflexivity|]. right. eauto.
  - eauto.
Qed.

End MainMore.


Lemma main_missing_arguments_witness :
  exists e,
    stdout_of (loads_const [f_1]) (int_const 1) (load_const [mem_a])
              [ "calc_sim.py"; "[1.0]"; "memory.json" ]%string
    = [dumps_error e] /\
    (e = IndexError "list index out of range" \/
     exists a1,
       nth_error [ "calc_sim.py"; "[1.0]"; "memory.json" ]%string 1 = Some a1 /\
       loads_const [f_1] a1 = Raise e).
Proof.
  apply (@main_missing_arguments (loads_const [f_1]) (int_const 1)
           (load_const [mem_a]) [ "calc_sim.py"; "[1.0]"; "memory.json" ]%string).
  simpl. lia.
Defined.

(** * Properties of [mcp/serena-local/api/config.py] *)

Lemma subscript_ok_iff (V : Type) (d : list (string * V)) key :
  (exists v, subscript d key = Ok v) <-> In key (map fst d).
Proof.
  induction d as [|[k v] d IH]; simpl.
  - split; [intros [v H]; discriminate|tauto].
  - destruct (String.eqb k key) eqn:E.
    + apply String.eqb_eq in E. split; [auto|eauto].
    + apply String.eqb_neq in E. rewrite IH. tauto.
Qed.

Lemma subscript_raises (V : Type) (d : list (string * V)) key e :
  subscript d key = Raise e -> e = KeyError key /\ ~ In key (map fst d).
Proof.
  induction d as [|[k v] d IH]; simpl.
  - intros H. inversion H. tauto.
  - destruct (String.eqb k key) eqn:E; [discriminate|].
    apply String.eqb_neq in E. intros H. destruct (IH H). tauto.
Qed.

(** X13.  The two tables have the same keys: for every quality name,
    either both [CRF_MAP[quality]] and [PRESET_MAP[quality]] are defined,
    or both raise [KeyError(quality)]. *)
Theorem quality_lookups_agree (quality : string) :
  (exists crf preset,
     subscript CRF_MAP quality = Ok crf /\ subscript PRESET_MAP quality = Ok preset) \/
  (subscript CRF_MAP quality = Raise (KeyError quality) /\
   subscript PRESET_MAP quality = Raise (KeyError quality)).
Proof.
  assert (Hkeys : map fst CRF_MAP = map fst PRESET_MAP) by reflexivity.
  destruct (subscript CRF_MAP quality) as [crf|e] eqn:E1;
    destruct (subscript PRESET_MAP quality) as [preset|e'] eqn:E2.
  - left. eauto.
  - exfalso. apply subscript_raises in E2. destruct E2 as [_ E2]. apply E2.
    rewrite <- Hkeys. apply subscript_ok_iff. eauto.
  - exfalso. apply subscript_raises in E1. destruct E1 as [_ E1]. apply E1.
    rewrite Hkeys. apply subscript_ok_iff. eauto.
  - right. apply subscript_raises in E1, E2. destruct E1 as [-> _], E2 as [-> _].
    split; reflexivity.
Qed.

(** * Properties of [mcp/serena-local/worker/inpaint_worker.py] *)

Section WorkerFacts.
Variable clock : nat -> float.
Variable format_1f : float -> string.

(** The state after the first [n] frames of the loop: one sleep per frame,
    one clock reading and one line per ten frames. *)
Lemma frames_run total start w n :
  clock_reads (fold_left (frame clock format_1f total start) (seq 0 n) w)
  = clock_reads w + n / 10 /\
  slept (fold_left (frame clock format_1f total start) (seq 0 n) w)
  = slept w ++ repeat f_0_01 n /\
  stderr (fold_left (frame clock format_1f total start) (seq 0 n) w)
  = stderr w
    ++ map (progress_line clock format_1f total (clock_reads w) start) (seq 0 (n / 10)).
Proof.
  induction n as [|n IH].
  - simpl. rewrite !app_nil_r. repeat split. lia.
  - rewrite seq_S, fold_left_app. simpl fold_left. rewrite ?Nat.add_0_l.
    destruct IH as [Hc [Hs He]].
    set (w1 := fold_left (frame clock format_1f total start) (seq 0 n) w) in *.
    assert (Hrep : forall l, (l ++ repeat f_0_01 n) ++ [f_0_01] = l ++ repeat f_0_01 (S n)).
    { intros l. rewrite <- app_assoc. f_equal. symmetry. apply repeat_cons. }
    unfold frame. replace (n + 1) with (S n) by lia.
    destruct (S n mod 10 =? 0) eqn:E.
    + apply Nat.eqb_eq in E.
      assert (Hd : S n / 10 = S (n / 10)).
      { pose proof (Nat.div_mod_eq (S n) 10). pose proof (Nat.div_mod_eq n 10).
        pose proof (Nat.mod_upper_bound n 10). lia. }
      assert (Hn : S n = 10 * (n / 10 + 1)).
      { pose proof (Nat.div_mod_eq (S n) 10). lia. }
      unfold time_time, time_sleep, print_stderr. cbn [clock_reads slept stderr].
      rewrite Hc, Hs, He, Hd. repeat split.
      * lia.
      * apply Hrep.
      * rewrite seq_S, map_app, app_assoc. cbn [map]. rewrite ?Nat.add_0_l.
        unfold progress_line. rewrite <- Hn. reflexivity.
    + apply Nat.eqb_neq in E.
      assert (Hd : S n / 10 = n / 10).
      { pose proof (Nat.div_mod_eq (S n) 10). pose proof (Nat.div_mod_eq n 10).
        pose proof (Nat.mod_upper_bound n 10). pose proof (Nat.mod_upper_bound (S n) 10). lia. }
      unfold time_sleep. cbn [clock_reads slept stderr].
      rewrite Hc, Hs, He, Hd. repeat split. apply Hrep.
Qed.

(** X14.  Whatever the clock shows and whatever the path is,
    [process_video] sleeps a hundred times for [0.01] seconds, reads the
    clock eleven times (once before the loop, once per report) and adds
    exactly ten lines to standard error: line [j] reports frame
    [10 * (j + 1)] of [100], with the time between the first reading and the
    reading taken for that line. *)
Theorem process_video_progress video_path w :
  clock_reads (process_video clock format_1f video_path w) = clock_reads w + 11 /\
  slept (process_video clock format_1f video_path w)
  = slept w ++ repeat f_0_01 100 /\
  stderr (process_video clock format_1f video_path w)
  = stderr w
    ++ map (progress_line clock format_1f 100 (clock_reads w + 1)
              (clock (clock_reads w)))
           (seq 0 10).
Proof.
  unfold process_video, time_time.
  pose proof (@frames_run 100 (clock (clock_reads w))
    {| clock_reads := S (clock_reads w); slept := slept w; stderr := stderr w |} 100) as H.
  cbn [clock_reads slept stderr] in H.
  replace (100 / 10) with 10 in H by reflexivity.
  destruct H as [Hc [Hs He]]. split; [|split].
  - rewrite Hc. exact (Nat.add_succ_comm _ 10).
  - exact Hs.
  - rewrite He. rewrite <- (Nat.add_1_r (clock_reads w)). reflexivity.
Qed.

(** The line for the tenth frame, as rendered. *)
Example progress_message_rendering x :
  progress_message format_1f 10 100 x
  = ("Completed 10/100 frames in " ++ format_1f x ++ "s")%string.
Proof. reflexivity. Qed.

End WorkerFacts.
